(* ===== verification/_CoqProject ===== *)
-Q . S2P
Prelude.v
JsValue.v
TsTypes.v
Sql.v
SqlText.v
Prisma.v
Seed.v
Orm.v
Raw.v
