(* ===== verification/Prelude.v ===== *)
(** * A verification development of sutt/dev-notes (Prisma nullable-aggregate demo)

    The repository is three TypeScript scripts on top of the Prisma ORM
    and one SQL table [simple(name TEXT NOT NULL, age INTEGER NULL)]:

    - [src/seed.ts]: [seed()] opens a [PrismaClient], runs
      [simple.deleteMany({})], then [simple.create] for each of the two
      fixed rows of [data] in order, and fires [$disconnect()] without
      awaiting it;
    - [src/orm.ts]: [query()] runs [simple.aggregate({_sum:{age:true}})],
      coerces the nullable sum with [Number(...)], adds 99, and logs one
      report; [main()] chains [seed().catch(log).then(() =>
      query().catch(log))];
    - [src/raw.ts]: [query()] runs three [$queryRaw] statements whose rows
      are declared ([QueryIntResult], [QueryStrResult]) but never checked,
      computes [badInt[0].mySum + 99] and logs one report; [main()] as in
      [orm.ts].

    The scripts interact only through the database table, the console and
    the call sequence of [main].

    ** Library layout (one file per component, in dependency order)

    - [Prelude] (this file): the promise monad [PM] (state and rejection
      threaded explicitly, the model of [async]/[await], [.then] and
      [.catch]), its notations [let*] and [let?] in [promise_scope], its
      laws (hint database [promise]), the hint database [prisma], and the
      shared lemmas on lists, strings, string scanning ([take_while])
      and integer sums.
    - [JsValue]: the JavaScript runtime the scripts call: values,
      [typeof], [String(v)] as template literals use it, [Number(v)],
      the binary [+] operator with its rounding to doubles
      ([double_of_int]), [JSON.stringify], property access.
    - [TsTypes]: the strict-mode checks [tsc] applies to the scripts'
      expressions (member and element access, [+], [Number()], [const]
      declarations, with TypeScript's diagnostics), an evaluator of the
      same expressions on [JsValue]'s values, and the checker's
      soundness ([type_sound]).
    - [Sql]: the SQL engine behind Prisma: values, the expression and
      [SELECT] syntax, name resolution per dialect (the double-quote
      rule, class [Dialect]), execution with [SUM] on 64-bit integers and
      [coalesce].
    - [SqlText]: the engine's front end for the text of a [$queryRaw]
      template: a lexer and a recursive-descent parser of the [SELECT]
      fragment.
    - [Prisma]: the client: the world (table, open clients, console,
      injected faults), [new PrismaClient], [deleteMany], [create],
      [aggregate], [$queryRaw] on SQL text, [$disconnect]; the class
      [Backend] (dialect and integer decoding of the driver) that the
      runners are proved against; the frame predicates of the calls.
    - [Seed], [Orm], [Raw]: [src/seed.ts], [src/orm.ts], [src/raw.ts],
      one definition per function of the source ([seed], [query],
      [main]) and per template literal.

    [JsValue], [TsTypes], [Sql], [SqlText] and most of [Prisma] model
    libraries and tools the scripts call, not code of this repository;
    they are there so that the scripts' definitions run on the values
    and errors the real libraries produce.  The claims are about the
    scripts.

    ** What the theorems show

    1. The end-to-end runs of [main()] (C1, C8, C11) and its totality
       (C7 for [orm.ts], C18 for [raw.ts]): with no fault [orm.ts]
       prints exactly the expected report; after a seeding failure it
       reports the stale table and leaves the seeder's client open;
       [raw.ts] never prints its report (C4) because [SUM(fav)] names
       no column.
    2. The error paths of the clients (C15, C16): [query()] of [orm.ts]
       closes its client exactly when it resolves, and [query()] of
       [raw.ts] always leaves its client open.
    3. The aggregate refines its abstract specification (C2): [_sum.age]
       is absent iff no row has an age, otherwise the sum, rounded to a
       double; [query()] of [orm.ts] prints the report of that
       specification (C3), with [goodValue] exact in doubles (C12).
    4. The seeder (C5, C6, C13, C14): on success the table is exactly
       [data]; on a failure it holds its old contents or a strict prefix
       of [data], the client stays open, and the error is the database's
       own, unchanged; on any rows, the loop inserts them up to the first
       age [create] refuses.
    5. The raw runner (C9, C10, C17): what the rows are against what the
       declared row types claim, per backend; [tsc] accepts
       [badInt[0].mySum + 99] and types [rawInt[0].mySum] as [number],
       yet the rows bound to [rawInt] need not have their declared type
       and the expression can evaluate to a string.

    ** Bounds and fuel

    Ages are 32-bit ([create] validates Prisma's [Int]); with fewer than
    2^32 rows their sum fits SQLite's 64-bit accumulator, so [SUM] never
    overflows (C2, C9).  The sum then reaches JavaScript rounded to the
    nearest double.  The theorems that read the report of a given table (C3,
    C8, C12) bound the table to 2^21 rows: the sum plus 99 then stays
    below 2^53, no rounding happens, and the decimal printing of the
    model is JavaScript's.  The lexer runs on fuel [length + 1]: it
    consumes a character per step ([SqlText.lex_fuel_enough],
    [SqlText.lex_not_out_of_fuel]); the parser runs on the number of
    tokens, and consumes one per call.

    ** Not modelled

    - Prisma's query builder, connection pool and generated types, and
      the type of its results as [tsc] sees them.
    - How a database error happens: a round trip either proceeds or
      rejects with the error the fault list holds, before any effect.
      A write that commits and then reports an error is not modelled.
      The error texts are SQLite's, for every dialect.
    - [$disconnect()] never fails, and since nothing awaits it, it is
      modelled as taking effect at once.
    - The engine's reals, [GROUP BY], joins and DML text (the scripts'
      writes go through [create] and [deleteMany]).
    - JavaScript fractions, [-0] and [Infinity]; the digits JavaScript
      prints for a number of 2^53 or more.
    - TypeScript beyond the expressions of the scripts (template
      literals, [async] typing, modules), and the names of interfaces in
      diagnostics (types are printed by their members).
    - The schema of [simple] is not under [src/]; it is modelled from
      the documentation ([Prisma.simple_table]).

    Every function, constant and statement of the three scripts has its
    definition; only the [import] lines and the commented-out lines have
    none.
*)

From stdpp Require Export base list strings.
From Stdlib Require Export ZArith Lia Ascii.

Declare Scope promise_scope.
Delimit Scope promise_scope with promise.

(** ** The promise monad

    An [async] function of the scripts is a computation over a world [S]
    that either resolves with a value or rejects with an error [E]; the
    world is threaded through both outcomes, because effects performed
    before a rejection stay performed. *)

Inductive outcome (E A : Type) : Type :=
| Resolved (a : A)
| Rejected (e : E).
Arguments Resolved {E A} a.
Arguments Rejected {E A} e.

Definition PM (S E A : Type) : Type := S -> outcome E A * S.

Section Promise.
Context {S E : Type}.

Definition pret {A} (a : A) : PM S E A := fun s => (Resolved a, s).

Definition preject {A} (e : E) : PM S E A := fun s => (Rejected e, s).

(** [await c] followed by the rest [k] of the [async] body. *)
Definition pbind {A B} (c : PM S E A) (k : A -> PM S E B) : PM S E B :=
  fun s => match c s with
           | (Resolved a, s') => k a s'
           | (Rejected e, s') => (Rejected e, s')
           end.

(** [c.catch(h)]: a rejection is handed to [h]. *)
Definition pcatch {A} (c : PM S E A) (h : E -> PM S E A) : PM S E A :=
  fun s => match c s with
           | (Resolved a, s') => (Resolved a, s')
           | (Rejected e, s') => h e s'
           end.

(** Read and update the world. *)
Definition pget : PM S E S := fun s => (Resolved s, s).
Definition pmodify (f : S -> S) : PM S E unit := fun s => (Resolved tt, f s).

(** Run [c] from [s] and return only the final world. *)
Definition pexec {A} (c : PM S E A) (s : S) : S := snd (c s).
End Promise.

Notation "'let*' x ':=' c 'in' k" := (pbind c (fun x => k))
  (at level 10, x name, c at level 100, k at level 200) : promise_scope.

(** Sequencing of a pure outcome (a synchronous computation that can
    throw), and its traversal of a list. *)
Definition obind {E A B} (o : outcome E A) (k : A -> outcome E B) : outcome E B :=
  match o with
  | Resolved a => k a
  | Rejected e => Rejected e
  end.

Fixpoint omapM {E A B} (f : A -> outcome E B) (l : list A) : outcome E (list B) :=
  match l with
  | [] => Resolved []
  | x :: rest => obind (f x) (fun y => obind (omapM f rest) (fun ys => Resolved (y :: ys)))
  end.

Notation "'let?' x ':=' o 'in' k" := (obind o (fun x => k))
  (at level 10, x name, o at level 100, k at level 200) : promise_scope.

(** ** Laws of the monad *)

Create Rewrite HintDb promise.

Section PromiseLaws.
Context {S E : Type}.

Lemma pbind_ret_l {A B} (a : A) (k : A -> PM S E B) s :
  pbind (pret a) k s = k a s.
Proof. reflexivity. Qed.

Lemma pbind_ret_r {A} (c : PM S E A) s : pbind c pret s = c s.
Proof. unfold pbind, pret. by destruct (c s) as [[] ?]. Qed.

Lemma pbind_assoc {A B C} (c : PM S E A) (k : A -> PM S E B)
      (k' : B -> PM S E C) s :
  pbind (pbind c k) k' s = pbind c (fun a => pbind (k a) k') s.
Proof. unfold pbind. by destruct (c s) as [[] ?]. Qed.

Lemma pbind_reject {A B} (e : E) (k : A -> PM S E B) s :
  pbind (preject e) k s = (Rejected e, s).
Proof. reflexivity. Qed.

Lemma pcatch_ret {A} (a : A) (h : E -> PM S E A) s :
  pcatch (pret a) h s = (Resolved a, s).
Proof. reflexivity. Qed.

Lemma pcatch_reject {A} (e : E) (h : E -> PM S E A) s :
  pcatch (preject e) h s = h e s.
Proof. reflexivity. Qed.

Lemma pbind_resolved {A B} (c : PM S E A) (k : A -> PM S E B) s a s' :
  c s = (Resolved a, s') -> pbind c k s = k a s'.
Proof. intros H. unfold pbind. by rewrite H. Qed.

Lemma pbind_rejected {A B} (c : PM S E A) (k : A -> PM S E B) s e s' :
  c s = (Rejected e, s') -> pbind c k s = (Rejected e, s').
Proof. intros H. unfold pbind. by rewrite H. Qed.

Lemma pcatch_resolved {A} (c : PM S E A) (h : E -> PM S E A) s a s' :
  c s = (Resolved a, s') -> pcatch c h s = (Resolved a, s').
Proof. intros H. unfold pcatch. by rewrite H. Qed.

Lemma pcatch_rejected {A} (c : PM S E A) (h : E -> PM S E A) s e s' :
  c s = (Rejected e, s') -> pcatch c h s = h e s'.
Proof. intros H. unfold pcatch. by rewrite H. Qed.

(** A caught computation whose handler resolves never rejects: the
    shape of every [.catch((e) => console.error(e))] of the scripts. *)
Lemma pcatch_resolves {A} (c : PM S E A) (h : E -> PM S E A) s :
  (forall e s', exists a s'', h e s' = (Resolved a, s'')) ->
  exists a s', pcatch c h s = (Resolved a, s').
Proof.
  intros Hh. unfold pcatch. destruct (c s) as [[a|e] s']; eauto.
Qed.
End PromiseLaws.

Lemma omapM_Resolved_iff {E A B} (f : A -> outcome E B) l l' :
  omapM f l = Resolved l' <-> Forall2 (fun a b => f a = Resolved b) l l'.
Proof.
  revert l'. induction l as [|x l IH]; intros l'; simpl.
  - split; intros H; [injection H as <-; constructor | inversion H; done].
  - destruct (f x) as [y|e] eqn:Hx; simpl.
    + destruct (omapM f l) as [ys|e] eqn:Hl; simpl.
      * split; [intros [= <-]; constructor; [done | exact (proj1 (IH ys) eq_refl)]|].
        intros H. inversion H as [|? b ? l2 Hb Hrest]; subst.
        apply IH in Hrest. congruence.
      * split; [discriminate|]. intros H. inversion H as [|? b ? l2 Hb Hrest]; subst.
        apply IH in Hrest. congruence.
    + split; [discriminate|]. intros H. inversion H; congruence.
Qed.

#[export] Hint Rewrite @pbind_ret_l @pbind_assoc @pbind_reject
  @pcatch_ret @pcatch_reject : promise.

(** ** Shared lemmas on lists and integer sums *)

Create HintDb prisma discriminated.
Create Rewrite HintDb prisma_rw.

(** Sum of a list of integers, the reference reading of SQL's [SUM]. *)
Definition sum_Z (l : list Z) : Z := foldr Z.add 0%Z l.

Lemma sum_Z_app l1 l2 : sum_Z (l1 ++ l2) = (sum_Z l1 + sum_Z l2)%Z.
Proof. induction l1 as [|x l1 IH]; simpl; [done|]. rewrite IH. lia. Qed.

Lemma sum_Z_bound (l : list Z) (b : Z) :
  Forall (fun x => Z.abs x <= b)%Z l ->
  (Z.abs (sum_Z l) <= Z.of_nat (length l) * b)%Z.
Proof.
  induction 1 as [|x l Hx _ IH]; simpl; [lia|].
  rewrite Nat2Z.inj_succ. lia.
Qed.

Lemma length_omap_le {A B} (f : A -> option B) (l : list A) :
  length (omap f l) <= length l.
Proof. induction l as [|x l IH]; cbn; [lia|]. destruct (f x); cbn; lia. Qed.

Lemma forallb_map {A B} (f : B -> bool) (g : A -> B) (l : list A) :
  forallb f (map g l) = forallb (fun x => f (g x)) l.
Proof. induction l as [|x l IH]; simpl; [done|]. by rewrite IH. Qed.

Lemma forallb_ext {A} (f g : A -> bool) (l : list A) :
  (forall x, f x = g x) -> forallb f l = forallb g l.
Proof. intros H. induction l as [|x l IH]; simpl; [done|]. by rewrite H, IH. Qed.

(** ** Scanning strings

    The longest prefix whose characters satisfy [p], and the rest: what
    a lexer does to read a word or a number. *)
Fixpoint take_while (p : ascii -> bool) (s : string) : string * string :=
  match s with
  | EmptyString => (EmptyString, EmptyString)
  | String c rest =>
      if p c then let '(w, r) := take_while p rest in (String c w, r)
      else (EmptyString, s)
  end.

Lemma take_while_length p s w r :
  take_while p s = (w, r) -> String.length r <= String.length s.
Proof.
  revert w r. induction s as [|c s IH]; intros w r; simpl; [intros [= <- <-]; simpl; lia|].
  destruct (p c); [|intros [= <- <-]; simpl; lia].
  destruct (take_while p s) as [w' r'] eqn:E. intros [= <- <-].
  specialize (IH _ _ eq_refl). lia.
Qed.

#[export] Hint Resolve length_omap_le : prisma.
#[export] Hint Rewrite sum_Z_app @omap_app : prisma_rw.
