(* ===== verification/JsValue.v ===== *)
(** * The JavaScript runtime the scripts call

    Values, [typeof], [String(v)] (what a template literal [${v}]
    inserts), [Number(v)], the binary [+] operator, [JSON.stringify] and
    property access, following the ECMAScript abstract operations
    (ToPrimitive, ToString, ToNumber, ToNumeric, the [+] case of
    ApplyStringOrNumericBinaryOperator, SerializeJSONProperty).

    Numbers are modelled as the integer-valued doubles and NaN: the
    scripts only ever hold integer-valued numbers.  Every operation that
    produces a number from an exact integer (addition, [Number(...)] of
    a string or a BigInt, and Prisma's decoding of an integer column)
    rounds it to the nearest double ([double_of_int]); below 2^53 in
    magnitude that is the identity (see [Orm.goodValue_exact]).  The
    decimal printing of numbers ([int_to_string]) is the digits of the
    integer, which is what JavaScript prints below 2^53.
    Negative zero, fractions and infinities are not represented. *)

From S2P Require Import Prelude.
From Stdlib Require Import Ascii DecimalString DecimalPos DecimalZ.

Local Open Scope string_scope.
Local Set Warnings "-register-all".

(** ** Values and errors *)

Inductive jsnum : Type :=
| JFin (z : Z)
| JNaN.

Inductive jsval : Type :=
| JUndefined
| JNull
| JBool (b : bool)
| JNumber (n : jsnum)
| JBigInt (z : Z)
| JString (s : string)
| JArray (xs : list jsval)
| JObject (fields : list (string * jsval)).

(** The errors that reach the scripts' [.catch] handlers: the runtime's
    [TypeError] and [ReferenceError] and the error classes of the Prisma
    client. *)
Inductive js_error : Type :=
| TypeError (msg : string)
| ReferenceError (msg : string)
| PrismaClientKnownRequestError (code : string) (msg : string)
| PrismaClientUnknownRequestError (msg : string)
| PrismaClientValidationError (msg : string)
| PrismaClientInitializationError (msg : string).

#[export] Instance jsnum_eq_dec : EqDecision jsnum.
Proof. solve_decision. Defined.

(** The largest integer [n] such that every integer of magnitude at most
    [n] is a double: [Number.MAX_SAFE_INTEGER]. *)
Definition MAX_SAFE_INTEGER : Z := 2 ^ 53 - 1.

(** ** [typeof] *)

Definition js_typeof (v : jsval) : string :=
  match v with
  | JUndefined => "undefined"
  | JNull => "object"
  | JBool _ => "boolean"
  | JNumber _ => "number"
  | JBigInt _ => "bigint"
  | JString _ => "string"
  | JArray _ | JObject _ => "object"
  end.

(** ** Decimal printing and parsing of integers *)

(** [Number.prototype.toString()] on an integer-valued number and
    [BigInt.prototype.toString()]: the decimal numeral, with [-] for
    negatives.  For a BigInt this is exact.  For a number it is exact
    below 10^21 when the number is an integer below 2^53 in magnitude;
    beyond 2^53 JavaScript prints the shortest digits that identify the
    double, padded with zeros ([2**60] prints as [1152921504606847000],
    not [1152921504606846976]), which this model does not reproduce, so
    the theorems that read printed numbers bound them below 2^53. *)
Definition int_to_string (z : Z) : string :=
  NilZero.string_of_int (Z.to_int z).

Definition number_to_string (n : jsnum) : string :=
  match n with
  | JFin z => int_to_string z
  | JNaN => "NaN"
  end.

(** ** Integers as doubles

    A JavaScript number is an IEEE 754 double.  The model keeps the
    integer-valued ones as [JFin z]; an exact integer becomes a number
    by rounding to the nearest double, ties to even, as [JSON.parse],
    [Number(...)] and [+] do.  Integers of magnitude below 2^53 are
    doubles themselves; above, [e] low bits are dropped so that 53
    significant bits remain.  (The exponent range of doubles, beyond
    2^1024, is not reached by the 64-bit integers of the scripts.) *)
Definition round_pos (n : Z) : Z :=
  if (n <? 2 ^ 53)%Z then n
  else
    let e := (Z.log2 n - 52)%Z in
    let q := (n / 2 ^ e)%Z in
    let r := (n mod 2 ^ e)%Z in
    let h := (2 ^ (e - 1))%Z in
    let q' := if (r <? h)%Z then q else if (h <? r)%Z then (q + 1)%Z
              else if Z.even q then q else (q + 1)%Z in
    (q' * 2 ^ e)%Z.

Definition double_of_int (z : Z) : Z :=
  if (z <? 0)%Z then (- round_pos (- z))%Z else round_pos z.

Lemma double_of_int_small z : (Z.abs z < 2 ^ 53)%Z -> double_of_int z = z.
Proof.
  intros H. unfold double_of_int, round_pos.
  destruct (Z.ltb_spec z 0); [rewrite (proj2 (Z.ltb_lt (- z) (2 ^ 53))) by lia; lia|].
  rewrite (proj2 (Z.ltb_lt z (2 ^ 53))) by lia. done.
Qed.

(** A signed decimal integer literal, as StringNumericLiteral reads it. *)
Definition parse_int_literal (s : string) : option Z :=
  match s with
  | String "+"%char rest => Z.of_uint <$> NilZero.uint_of_string rest
  | _ => Z.of_int <$> NilZero.int_of_string s
  end.

Definition is_js_space (c : ascii) : bool :=
  match Ascii.nat_of_ascii c with
  | 9 | 10 | 11 | 12 | 13 | 32 => true
  | _ => false
  end.

Fixpoint trim_start (s : string) : string :=
  match s with
  | String c rest => if is_js_space c then trim_start rest else s
  | EmptyString => EmptyString
  end.

Fixpoint trim_end (s : string) : string :=
  match s with
  | String c rest =>
      let r := trim_end rest in
      if is_js_space c && String.eqb r "" then "" else String c r
  | EmptyString => EmptyString
  end.

(** [String.prototype.trim], on the ASCII white space characters. *)
Definition trim (s : string) : string := trim_end (trim_start s).

(** StringToNumber: whitespace is trimmed, the empty string is 0, an
    integer literal is its value; every other string is NaN here (the
    literals with a fraction, an exponent, a radix prefix or [Infinity],
    which JavaScript also accepts, are outside the integer model). *)
Definition string_to_number (s : string) : jsnum :=
  let t := trim s in
  if String.eqb t "" then JFin 0
  else match parse_int_literal t with
       | Some z => JFin (double_of_int z)
       | None => JNaN
       end.

(** ** ToString, ToPrimitive, ToNumber *)

(** ToString of a value, with [Array.prototype.join] (separator [,],
    [null] and [undefined] elements printed as the empty string) for
    arrays and [Object.prototype.toString] for plain objects. *)
Fixpoint js_to_string (v : jsval) : string :=
  match v with
  | JUndefined => "undefined"
  | JNull => "null"
  | JBool true => "true"
  | JBool false => "false"
  | JNumber n => number_to_string n
  | JBigInt z => int_to_string z
  | JString s => s
  | JArray xs =>
      (fix join (xs : list jsval) : string :=
         match xs with
         | [] => ""
         | [x] => match x with JUndefined | JNull => "" | _ => js_to_string x end
         | x :: rest =>
             match x with JUndefined | JNull => "" | _ => js_to_string x end
               ++ "," ++ join rest
         end) xs
  | JObject _ => "[object Object]"
  end.

Definition is_primitive (v : jsval) : bool :=
  match v with JArray _ | JObject _ => false | _ => true end.

(** ToPrimitive with the default hint: an array or a plain object has no
    primitive [valueOf], so its [toString] result is used. *)
Definition js_to_primitive (v : jsval) : jsval :=
  if is_primitive v then v else JString (js_to_string v).

(** ToNumber on a primitive. *)
Definition js_to_number_prim (v : jsval) : outcome js_error jsnum :=
  match v with
  | JUndefined => Resolved JNaN
  | JNull => Resolved (JFin 0)
  | JBool b => Resolved (JFin (if b then 1 else 0))
  | JNumber n => Resolved n
  | JString s => Resolved (string_to_number s)
  | JBigInt _ => Rejected (TypeError "Cannot convert a BigInt value to a number")
  | JArray _ | JObject _ => Resolved JNaN
  end.

(** The [Number(value)] conversion function: ToNumeric, and a BigInt is
    converted to the number with its value. *)
Definition js_Number (v : jsval) : outcome js_error jsnum :=
  match js_to_primitive v with
  | JBigInt z => Resolved (JFin (double_of_int z))
  | p => js_to_number_prim p
  end.

(** ** The binary [+] operator *)

(** The sum of two numbers: the exact sum rounded once to a double, as
    IEEE 754 addition is; [NaN] is absorbing. *)
Definition num_add (a b : jsnum) : jsnum :=
  match a, b with
  | JFin x, JFin y => JFin (double_of_int (x + y))
  | _, _ => JNaN
  end.

(** [l + r]: after ToPrimitive, a string on either side makes it a
    concatenation of ToString of both sides; otherwise both sides are
    converted with ToNumeric and must agree on Number or BigInt. *)
Definition js_add (l r : jsval) : outcome js_error jsval :=
  let lp := js_to_primitive l in
  let rp := js_to_primitive r in
  match lp, rp with
  | JString _, _ | _, JString _ =>
      Resolved (JString (js_to_string lp ++ js_to_string rp))
  | JBigInt x, JBigInt y => Resolved (JBigInt (x + y))
  | JBigInt _, _ | _, JBigInt _ =>
      Rejected (TypeError "Cannot mix BigInt and other types, use explicit conversions")
  | _, _ =>
      match js_to_number_prim lp, js_to_number_prim rp with
      | Resolved x, Resolved y => Resolved (JNumber (num_add x y))
      | Rejected e, _ | _, Rejected e => Rejected e
      end
  end.

(** ** Property access *)

Fixpoint field_lookup (fs : list (string * jsval)) (k : string) : option jsval :=
  match fs with
  | [] => None
  | (k', v) :: rest => if String.eqb k k' then Some v else field_lookup rest k
  end.

Definition cannot_read (v : jsval) (p : string) : js_error :=
  TypeError ("Cannot read properties of " ++ js_to_string v ++ " (reading '" ++ p ++ "')").

(** [v.p]: reading a property of [undefined] or [null] throws; a missing
    property is [undefined].  The prototype properties of primitives
    (e.g. a string's [length]) are not modelled: the scripts read
    properties of Prisma's result objects and arrays only. *)
Definition js_get (v : jsval) (p : string) : outcome js_error jsval :=
  match v with
  | JUndefined | JNull => Rejected (cannot_read v p)
  | JObject fs => Resolved (default JUndefined (field_lookup fs p))
  | JArray xs =>
      Resolved (if String.eqb p "length" then JNumber (JFin (Z.of_nat (length xs)))
                else JUndefined)
  | _ => Resolved JUndefined
  end.

(** [v[i]] for an array index [i]. *)
Definition js_index (v : jsval) (i : nat) : outcome js_error jsval :=
  match v with
  | JUndefined | JNull => Rejected (cannot_read v (int_to_string (Z.of_nat i)))
  | JArray xs => Resolved (default JUndefined (xs !! i))
  | JObject fs => Resolved (default JUndefined (field_lookup fs (int_to_string (Z.of_nat i))))
  | _ => Resolved JUndefined
  end.

(** ** [JSON.stringify] *)

(** The double quote character, and the hexadecimal digits used by the
    [\u00XX] escapes. *)
Definition dquote : string := String (Ascii.ascii_of_nat 34) EmptyString.

Definition hex_digit (n : nat) : string :=
  String (Ascii.ascii_of_nat (if (n <? 10)%nat then (48 + n)%nat else (87 + n)%nat)) EmptyString.

(** QuoteJSONString, one character. *)
Definition json_escape_char (c : ascii) : string :=
  match Ascii.nat_of_ascii c with
  | 8 => "\b"
  | 9 => "\t"
  | 10 => "\n"
  | 12 => "\f"
  | 13 => "\r"
  | 34 => "\" ++ dquote
  | 92 => "\\"
  | n => if (n <? 32)%nat then "\u00" ++ hex_digit (n / 16)%nat ++ hex_digit (n mod 16)%nat
         else String c EmptyString
  end.

Fixpoint json_escape (s : string) : string :=
  match s with
  | EmptyString => EmptyString
  | String c rest => json_escape_char c ++ json_escape rest
  end.

Definition json_quote (s : string) : string := dquote ++ json_escape s ++ dquote.

Fixpoint join_with (sep : string) (l : list string) : string :=
  match l with
  | [] => ""
  | [x] => x
  | x :: rest => x ++ sep ++ join_with sep rest
  end.

(** SerializeJSONProperty: [None] is the value [undefined] (a property
    holding it is left out of an object, an element holding it is
    printed [null]); a BigInt throws. *)
Fixpoint json_ser (v : jsval) : outcome js_error (option string) :=
  match v with
  | JUndefined => Resolved None
  | JNull => Resolved (Some "null")
  | JBool b => Resolved (Some (if b then "true" else "false"))
  | JNumber (JFin z) => Resolved (Some (int_to_string z))
  | JNumber JNaN => Resolved (Some "null")
  | JBigInt _ => Rejected (TypeError "Do not know how to serialize a BigInt")
  | JString s => Resolved (Some (json_quote s))
  | JArray xs =>
      match (fix elems (xs : list jsval) : outcome js_error (list string) :=
               match xs with
               | [] => Resolved []
               | x :: rest =>
                   match json_ser x, elems rest with
                   | Rejected e, _ | _, Rejected e => Rejected e
                   | Resolved o, Resolved ss => Resolved (default "null" o :: ss)
                   end
               end) xs with
      | Resolved ss => Resolved (Some ("[" ++ join_with "," ss ++ "]"))
      | Rejected e => Rejected e
      end
  | JObject fs =>
      match (fix members (fs : list (string * jsval)) : outcome js_error (list string) :=
               match fs with
               | [] => Resolved []
               | (k, x) :: rest =>
                   match json_ser x, members rest with
                   | Rejected e, _ | _, Rejected e => Rejected e
                   | Resolved None, Resolved ss => Resolved ss
                   | Resolved (Some s), Resolved ss => Resolved ((json_quote k ++ ":" ++ s) :: ss)
                   end
               end) fs with
      | Resolved ss => Resolved (Some ("{" ++ join_with "," ss ++ "}"))
      | Rejected e => Rejected e
      end
  end.

(** [JSON.stringify(v)] as a template literal inserts it: [undefined]
    prints as the word [undefined]. *)
Definition json_stringify (v : jsval) : outcome js_error jsval :=
  match json_ser v with
  | Resolved (Some s) => Resolved (JString s)
  | Resolved None => Resolved JUndefined
  | Rejected e => Rejected e
  end.
