(* ===== verification/TsTypes.v ===== *)
(** * What [tsc] checks of the scripts' expressions, and what it promises

    The scripts are compiled by [tsc] in strict mode: the comment of
    orm.ts:13-15 quotes its diagnostic ['result._sum.age' is possibly
    'null'.].  This file models the part of the checker the scripts
    exercise: the types [number], [string], [boolean], [null],
    [undefined], unions, object and array types; the expressions
    [x], [e.f], [e[i]], number and string literals, [a + b] and
    [Number(e)]; and [const x: T = e] declarations.  The typing rules
    follow [checker.ts] of TypeScript:
    - a property or element access first checks that its object is not
      possibly [null] or [undefined] ([checkNonNullExpression]);
    - [a + b] checks both operands for [null] and [undefined] unless one
      of them is string-like, then types the sum [number] when both are
      number-like, [string] when one is string-like, and reports
      TS2365 otherwise;
    - [Number(value?: any): number];
    - an element access [e[i]] on [T[]] has type [T]
      ([noUncheckedIndexedAccess] is off by default);
    - diagnostics on an operand that is an entity name (an identifier
      or a chain of property accesses) quote it (TS18047/18048/18049),
      others say [Object is possibly ...] (TS2531/2532/2533).
    Type names are printed structurally (an interface by its members).

    Beside it, [eval] runs the same expressions on the JavaScript values
    of [JsValue], and [has_type] says when a value has a type.  The
    soundness theorem ([type_sound]) states what the checker promises:
    in an environment whose values have their declared types, an
    expression or a declaration the checker accepts evaluates without
    throwing to a value of its type, as long as its element accesses are
    in bounds.  Type equality is decided by [ty_eqb] ([ty_eq_dec]), and
    the assignability of declarations is sound for the value typing
    ([assignable_sound]).  The
    hypothesis on the environment is what the scripts' [$queryRaw<T>]
    bindings do not check. *)

From S2P Require Import Prelude JsValue.

Local Open Scope string_scope.
Local Open Scope promise_scope.
Local Set Warnings "-register-all".

(** ** Types, expressions, diagnostics *)

Inductive ty : Type :=
| TNumber
| TString
| TBoolean
| TNull
| TUndefined
| TUnion (a b : ty)
| TObject (fs : list (string * ty))
| TArray (t : ty).

Inductive texpr : Type :=
| EVar (x : string)
| EMember (e : texpr) (f : string)
| EIndex (e : texpr) (i : nat)
| ENum (z : Z)
| EStr (s : string)
| EAdd (a b : texpr)
| ENumberCall (e : texpr).

(** The checker's answer: the type of the expression, or the first
    diagnostic, with its code and message. *)
Inductive tsc_result : Type :=
| Typed (t : ty)
| Diag (code : Z) (msg : string).

Fixpoint assoc {A} (l : list (string * A)) (x : string) : option A :=
  match l with
  | [] => None
  | (y, a) :: rest => if String.eqb x y then Some a else assoc rest x
  end.

Fixpoint ty_text (t : ty) : string :=
  match t with
  | TNumber => "number"
  | TString => "string"
  | TBoolean => "boolean"
  | TNull => "null"
  | TUndefined => "undefined"
  | TUnion a b => ty_text a ++ " | " ++ ty_text b
  | TObject fs =>
      "{ " ++ (fix members (fs : list (string * ty)) : string :=
                 match fs with
                 | [] => ""
                 | (f, t') :: rest => f ++ ": " ++ ty_text t' ++ "; " ++ members rest
                 end) fs ++ "}"
  | TArray (TUnion _ _ as t') => "(" ++ ty_text t' ++ ")[]"
  | TArray t' => ty_text t' ++ "[]"
  end.

Fixpoint expr_text (e : texpr) : string :=
  match e with
  | EVar x => x
  | EMember e' f => expr_text e' ++ "." ++ f
  | EIndex e' i => expr_text e' ++ "[" ++ int_to_string (Z.of_nat i) ++ "]"
  | ENum z => int_to_string z
  | EStr s => json_quote s
  | EAdd a b => expr_text a ++ " + " ++ expr_text b
  | ENumberCall e' => "Number(" ++ expr_text e' ++ ")"
  end.

(** An identifier or a chain of property accesses on one. *)
Fixpoint is_entity_name (e : texpr) : bool :=
  match e with
  | EVar _ => true
  | EMember e' _ => is_entity_name e'
  | _ => false
  end.

Fixpoint has_null (t : ty) : bool :=
  match t with TNull => true | TUnion a b => has_null a || has_null b | _ => false end.

Fixpoint has_undefined (t : ty) : bool :=
  match t with TUndefined => true | TUnion a b => has_undefined a || has_undefined b | _ => false end.

Fixpoint number_like (t : ty) : bool :=
  match t with TNumber => true | TUnion a b => number_like a && number_like b | _ => false end.

Fixpoint string_like (t : ty) : bool :=
  match t with TString => true | TUnion a b => string_like a && string_like b | _ => false end.

(** [checkNonNullType]: the diagnostic for an operand that may be
    [null] or [undefined]. *)
Definition check_non_null (e : texpr) (t : ty) : option (Z * string) :=
  let n := has_null t in
  let u := has_undefined t in
  if n || u then
    let what := if n then (if u then "'null' or 'undefined'" else "'null'") else "'undefined'" in
    if is_entity_name e then
      Some ((if n then (if u then 18049 else 18047) else 18048)%Z,
            "'" ++ expr_text e ++ "' is possibly " ++ what ++ ".")
    else
      Some ((if n then (if u then 2533 else 2531) else 2532)%Z, "Object is possibly " ++ what ++ ".")
  else None.

Definition tenv : Type := list (string * ty).

(** The checker on an expression. *)
Fixpoint type_of (env : tenv) (e : texpr) : tsc_result :=
  match e with
  | EVar x =>
      match assoc env x with
      | Some t => Typed t
      | None => Diag 2304 ("Cannot find name '" ++ x ++ "'.")
      end
  | EMember e' f =>
      match type_of env e' with
      | Typed t =>
          match check_non_null e' t with
          | Some (c, m) => Diag c m
          | None =>
              match t with
              | TObject fs =>
                  match assoc fs f with
                  | Some tf => Typed tf
                  | None => Diag 2339 ("Property '" ++ f ++ "' does not exist on type '" ++ ty_text t ++ "'.")
                  end
              | _ => Diag 2339 ("Property '" ++ f ++ "' does not exist on type '" ++ ty_text t ++ "'.")
              end
          end
      | d => d
      end
  | EIndex e' i =>
      match type_of env e' with
      | Typed t =>
          match check_non_null e' t with
          | Some (c, m) => Diag c m
          | None =>
              match t with
              | TArray te => Typed te
              | _ => Diag 7053 ("Element implicitly has an 'any' type because expression of type '" ++
                                int_to_string (Z.of_nat i) ++ "' can't be used to index type '" ++
                                ty_text t ++ "'.")
              end
          end
      | d => d
      end
  | ENum _ => Typed TNumber
  | EStr _ => Typed TString
  | EAdd a b =>
      match type_of env a, type_of env b with
      | Typed ta, Typed tb =>
          let checked :=
            if string_like ta || string_like tb then None
            else match check_non_null a ta with
                 | Some d => Some d
                 | None => check_non_null b tb
                 end in
          match checked with
          | Some (c, m) => Diag c m
          | None =>
              if number_like ta && number_like tb then Typed TNumber
              else if string_like ta || string_like tb then Typed TString
              else Diag 2365 ("Operator '+' cannot be applied to types '" ++ ty_text ta ++
                              "' and '" ++ ty_text tb ++ "'.")
          end
      | Diag c m, _ => Diag c m
      | _, Diag c m => Diag c m
      end
  | ENumberCall e' =>
      match type_of env e' with
      | Typed _ => Typed TNumber
      | d => d
      end
  end.

Fixpoint ty_eqb (s t : ty) : bool :=
  match s, t with
  | TNumber, TNumber | TString, TString | TBoolean, TBoolean
  | TNull, TNull | TUndefined, TUndefined => true
  | TUnion a b, TUnion c d => ty_eqb a c && ty_eqb b d
  | TObject fs, TObject gs =>
      (fix members (fs gs : list (string * ty)) : bool :=
         match fs, gs with
         | [], [] => true
         | (f, a) :: r, (g, b) :: r' => String.eqb f g && ty_eqb a b && members r r'
         | _, _ => false
         end) fs gs
  | TArray a, TArray b => ty_eqb a b
  | _, _ => false
  end.

(** Assignability, as far as the declarations of the scripts need it: a
    union is assignable when each member is, and a member type is
    assignable to a union containing it. *)
Fixpoint in_union (s t : ty) : bool :=
  match t with
  | TUnion a b => in_union s a || in_union s b
  | _ => ty_eqb s t
  end.

Fixpoint assignable (s t : ty) : bool :=
  match s with
  | TUnion a b => assignable a t && assignable b t
  | _ => in_union s t
  end.

(** [const x: T = e]. *)
Definition check_decl (env : tenv) (T : ty) (e : texpr) : tsc_result :=
  match type_of env e with
  | Typed t =>
      if assignable t T then Typed T
      else Diag 2322 ("Type '" ++ ty_text t ++ "' is not assignable to type '" ++ ty_text T ++ "'.")
  | d => d
  end.

(** ** Run time *)

Definition venv : Type := list (string * jsval).

Fixpoint eval (env : venv) (e : texpr) : outcome js_error jsval :=
  match e with
  | EVar x =>
      match assoc env x with
      | Some v => Resolved v
      | None => Rejected (ReferenceError (x ++ " is not defined"))
      end
  | EMember e' f => let? v := eval env e' in js_get v f
  | EIndex e' i => let? v := eval env e' in js_index v i
  | ENum z => Resolved (JNumber (JFin z))
  | EStr s => Resolved (JString s)
  | EAdd a b =>
      let? va := eval env a in
      let? vb := eval env b in
      js_add va vb
  | ENumberCall e' =>
      let? v := eval env e' in
      let? n := js_Number v in
      Resolved (JNumber n)
  end.

(** A value of a type: what [typeof] and the members say of it. *)
Fixpoint has_type (v : jsval) (t : ty) : bool :=
  match t with
  | TNumber => match v with JNumber _ => true | _ => false end
  | TString => match v with JString _ => true | _ => false end
  | TBoolean => match v with JBool _ => true | _ => false end
  | TNull => match v with JNull => true | _ => false end
  | TUndefined => match v with JUndefined => true | _ => false end
  | TUnion a b => has_type v a || has_type v b
  | TObject fs =>
      match v with
      | JObject gs =>
          (fix members (fs : list (string * ty)) : bool :=
             match fs with
             | [] => true
             | (f, tf) :: rest => has_type (default JUndefined (field_lookup gs f)) tf && members rest
             end) fs
      | _ => false
      end
  | TArray te =>
      match v with
      | JArray xs => forallb (fun x => has_type x te) xs
      | _ => false
      end
  end.

Definition env_ok (tenv_ : tenv) (env : venv) : Prop :=
  forall x t, assoc tenv_ x = Some t -> exists v, assoc env x = Some v /\ has_type v t = true.

(** Every element access of the expression reads an index below the
    length of its array. *)
Fixpoint in_bounds (env : venv) (e : texpr) : bool :=
  match e with
  | EIndex e' i =>
      in_bounds env e' &&
      match eval env e' with Resolved (JArray xs) => (i <? length xs)%nat | _ => true end
  | EMember e' _ | ENumberCall e' => in_bounds env e'
  | EAdd a b => in_bounds env a && in_bounds env b
  | _ => true
  end.

(** ** Values of a type *)

Lemma has_type_object gs fs :
  has_type (JObject gs) (TObject fs) =
    forallb (fun '(f, tf) => has_type (default JUndefined (field_lookup gs f)) tf) fs.
Proof. induction fs as [|[f tf] fs IH]; [done|]. simpl in *. by rewrite IH. Qed.

Lemma has_type_field gs fs f tf :
  has_type (JObject gs) (TObject fs) = true -> assoc fs f = Some tf ->
  has_type (default JUndefined (field_lookup gs f)) tf = true.
Proof.
  rewrite has_type_object. induction fs as [|[g tg] fs IH]; [done|]. simpl.
  intros [Hg Hfs]%andb_prop. destruct (String.eqb f g) eqn:E; [|by apply IH].
  apply String.eqb_eq in E as ->. by intros [= <-].
Qed.

Lemma has_type_elem xs te i x :
  has_type (JArray xs) (TArray te) = true -> xs !! i = Some x -> has_type x te = true.
Proof.
  simpl. intros Hall Hx. apply forallb_forall with (x := x) in Hall; [done|].
  by eapply list_elem_of_In, list_elem_of_lookup_2.
Qed.

(** A value of a type that admits neither [null] nor [undefined] is
    neither. *)
Lemma has_type_non_null v t :
  has_type v t = true -> has_null t = false -> has_undefined t = false ->
  v <> JNull /\ v <> JUndefined.
Proof.
  induction t; simpl; try (by destruct v); try done.
  intros [H|H]%orb_true_iff [Ha Hb]%orb_false_iff [Hc Hd]%orb_false_iff; auto.
Qed.

Lemma has_type_number v t :
  has_type v t = true -> number_like t = true -> exists n, v = JNumber n.
Proof.
  induction t; simpl; try done; try (destruct v; by eauto).
  intros [H|H]%orb_true_iff [Ha Hb]%andb_prop; auto.
Qed.

Lemma has_type_string v t :
  has_type v t = true -> string_like t = true -> exists s, v = JString s.
Proof.
  induction t; simpl; try done; try (destruct v; by eauto).
  intros [H|H]%orb_true_iff [Ha Hb]%andb_prop; auto.
Qed.

Lemma check_non_null_none e t :
  check_non_null e t = None -> has_null t = false /\ has_undefined t = false.
Proof.
  unfold check_non_null. destruct (has_null t), (has_undefined t); simpl; try done.
  all: by destruct (is_entity_name e).
Qed.

(** ** The run-time operations on values of a type *)

Lemma js_add_string_l s v : exists s', js_add (JString s) v = Resolved (JString s').
Proof. unfold js_add. simpl. by eexists. Qed.

Lemma js_add_string_r v s : exists s', js_add v (JString s) = Resolved (JString s').
Proof. unfold js_add. destruct (js_to_primitive v); by eexists. Qed.

Lemma js_add_numbers x y : js_add (JNumber x) (JNumber y) = Resolved (JNumber (num_add x y)).
Proof. reflexivity. Qed.

Lemma js_Number_total v : exists n, js_Number v = Resolved n.
Proof. destruct v; by eexists. Qed.

Lemma js_get_object gs f : js_get (JObject gs) f = Resolved (default JUndefined (field_lookup gs f)).
Proof. reflexivity. Qed.

Lemma js_index_array xs i : js_index (JArray xs) i = Resolved (default JUndefined (xs !! i)).
Proof. reflexivity. Qed.

Lemma string_like_not_number t : string_like t = true -> number_like t = false.
Proof. induction t; simpl; try done. intros [Ha _]%andb_prop. by rewrite IHt1. Qed.

(** ** Equality and assignability of types *)

Section TyInd.
Variable P : ty -> Prop.
Hypothesis HNumber : P TNumber.
Hypothesis HString : P TString.
Hypothesis HBoolean : P TBoolean.
Hypothesis HNull : P TNull.
Hypothesis HUndefined : P TUndefined.
Hypothesis HUnion : forall a b, P a -> P b -> P (TUnion a b).
Hypothesis HObject : forall fs, Forall P (map snd fs) -> P (TObject fs).
Hypothesis HArray : forall t, P t -> P (TArray t).

(** Induction on types through the members of object types. *)
Fixpoint ty_ind' (t : ty) : P t :=
  match t with
  | TNumber => HNumber
  | TString => HString
  | TBoolean => HBoolean
  | TNull => HNull
  | TUndefined => HUndefined
  | TUnion a b => HUnion a b (ty_ind' a) (ty_ind' b)
  | TObject fs =>
      HObject fs
        ((fix members (l : list (string * ty)) : Forall P (map snd l) :=
            match l with
            | [] => List.Forall_nil _
            | (_, a) :: l' => List.Forall_cons _ a (map snd l') (ty_ind' a) (members l')
            end) fs)
  | TArray t' => HArray t' (ty_ind' t')
  end.
End TyInd.

Lemma ty_eqb_sound s t : ty_eqb s t = true -> s = t.
Proof.
  revert t. induction s as [| | | | |a b IHa IHb|fs IH|a IHa] using ty_ind';
    intros [| | | | |c d|gs|c]; simpl; try done.
  - intros [Ha Hb]%andb_prop. by rewrite (IHa _ Ha), (IHb _ Hb).
  - revert gs. induction fs as [|[f a] fs IHfs]; intros [|[g b] gs]; simpl; try done.
    inversion IH as [|? ? Ha Hfs]; subst.
    intros [[Hf Hab]%andb_prop Hr]%andb_prop. apply String.eqb_eq in Hf as ->.
    rewrite (Ha _ Hab). by injection (IHfs Hfs gs Hr) as ->.
  - intros H. by rewrite (IHa _ H).
Qed.

Lemma ty_eqb_refl t : ty_eqb t t = true.
Proof.
  induction t as [| | | | |a b IHa IHb|fs IH|a IHa] using ty_ind'; simpl; try done.
  - by rewrite IHa, IHb.
  - induction fs as [|[f a] fs IHfs]; simpl; [done|]. inversion IH; subst.
    rewrite String.eqb_refl. simpl. rewrite H1. by apply IHfs.
Qed.

#[export] Instance ty_eq_dec : EqDecision ty.
Proof.
  intros s t. destruct (ty_eqb s t) eqn:E; [left; by apply ty_eqb_sound|].
  right. intros ->. by rewrite ty_eqb_refl in E.
Defined.

(** A declaration's assignability check is sound: every value of the
    expression's type has the declared type. *)
Lemma in_union_sound s t v : in_union s t = true -> has_type v s = true -> has_type v t = true.
Proof.
  induction t as [| | | | |a IHa b IHb| |]; simpl;
    try (intros E Hv; apply ty_eqb_sound in E; by subst).
  intros [H|H]%orb_true_iff Hv; apply orb_true_iff; eauto.
Qed.

Lemma assignable_sound s t v : assignable s t = true -> has_type v s = true -> has_type v t = true.
Proof.
  induction s as [| | | | |a IHa b IHb| |]; try apply in_union_sound.
  simpl. intros [Ha Hb]%andb_prop [H|H]%orb_true_iff; eauto.
Qed.

(** ** Soundness *)

Section Soundness.
Context (tenv_ : tenv) (env : venv).
Hypothesis Henv : env_ok tenv_ env.

Lemma eval_well_typed e t :
  in_bounds env e = true -> type_of tenv_ e = Typed t ->
  exists v, eval env e = Resolved v /\ has_type v t = true.
Proof.
  revert t. induction e as [x|e IH f|e IH i|z|s|a IHa b IHb|e IH]; intros t Hb Ht; simpl in *.
  - destruct (assoc tenv_ x) eqn:E; [injection Ht as <-|discriminate].
    destruct (Henv _ _ E) as (v & -> & Hv). eauto.
  - destruct (type_of tenv_ e) as [t0|c m] eqn:E; [|discriminate].
    destruct (check_non_null e t0) as [[c m]|] eqn:C; [discriminate|].
    destruct (IH t0 Hb eq_refl) as (v0 & -> & Hv0). simpl.
    destruct t0 as [| | | | | | fs|]; try discriminate.
    destruct (assoc fs f) eqn:F; [injection Ht as <-|discriminate].
    destruct v0 as [| | | | | | |gs]; try discriminate.
    eexists. split; [reflexivity|]. by eapply has_type_field.
  - apply andb_prop in Hb as [Hb Hi].
    destruct (type_of tenv_ e) as [t0|c m] eqn:E; [|discriminate].
    destruct (check_non_null e t0) as [[c m]|] eqn:C; [discriminate|].
    destruct (IH t0 Hb eq_refl) as (v0 & Ev & Hv0). rewrite Ev in Hi |- *. simpl.
    destruct t0 as [| | | | | | |te]; try discriminate. injection Ht as <-.
    destruct v0 as [| | | | | |xs|]; try discriminate.
    apply Nat.ltb_lt, lookup_lt_is_Some_2 in Hi as [x Hx].
    exists x. rewrite js_index_array, Hx. split; [done|]. by eapply has_type_elem.
  - injection Ht as <-. by eexists.
  - injection Ht as <-. by eexists.
  - apply andb_prop in Hb as [Hba Hbb].
    destruct (type_of tenv_ a) as [ta|] eqn:Ea; destruct (type_of tenv_ b) as [tb|] eqn:Eb;
      try discriminate.
    destruct (IHa ta Hba eq_refl) as (va & -> & Hva).
    destruct (IHb tb Hbb eq_refl) as (vb & -> & Hvb). simpl.
    destruct (string_like ta) eqn:Sa; [|destruct (string_like tb) eqn:Sb].
    + rewrite (string_like_not_number ta Sa) in Ht. simpl in Ht. injection Ht as <-.
      destruct (has_type_string va ta Hva Sa) as [s ->].
      destruct (js_add_string_l s vb) as [s' ->]. by eexists.
    + rewrite (string_like_not_number tb Sb), andb_false_r in Ht. simpl in Ht. injection Ht as <-.
      destruct (has_type_string vb tb Hvb Sb) as [s ->].
      destruct (js_add_string_r va s) as [s' ->]. by eexists.
    + simpl in Ht. destruct (check_non_null a ta) as [[c m]|]; [discriminate|].
      destruct (check_non_null b tb) as [[c m]|]; [discriminate|].
      destruct (number_like ta) eqn:Na, (number_like tb) eqn:Nb; try discriminate.
      injection Ht as <-.
      destruct (has_type_number va ta Hva Na) as [x ->].
      destruct (has_type_number vb tb Hvb Nb) as [y ->]. by eexists.
  - destruct (type_of tenv_ e) as [t0|c m] eqn:E; [|discriminate]. injection Ht as <-.
    destruct (IH t0 Hb eq_refl) as (v0 & -> & _). simpl.
    destruct (js_Number_total v0) as [n ->]. by eexists.
Qed.

(** A declaration [const x: T = e] the checker accepts: the value of [e]
    has the declared type [T]. *)
Lemma decl_well_typed e T :
  in_bounds env e = true -> check_decl tenv_ T e = Typed T ->
  exists v, eval env e = Resolved v /\ has_type v T = true.
Proof.
  unfold check_decl. intros Hb. destruct (type_of tenv_ e) as [t|] eqn:Ht; [|discriminate].
  destruct (assignable t T) eqn:A; [intros _|discriminate].
  destruct (eval_well_typed e t Hb Ht) as (v & Ev & Hv).
  exists v. split; [done|]. by eapply assignable_sound.
Qed.

End Soundness.

(** A decidable sufficient check of [env_ok]. *)
Definition env_okb (tenv_ : tenv) (env : venv) : bool :=
  forallb (fun '(x, t) => match assoc env x with Some v => has_type v t | None => false end) tenv_.

Lemma env_okb_sound tenv_ env : env_okb tenv_ env = true -> env_ok tenv_ env.
Proof.
  unfold env_okb. induction tenv_ as [|[y ty'] tenv_ IH]; [done|]. simpl.
  intros [Hy Hr]%andb_prop x t. cbn [assoc]. destruct (String.eqb x y) eqn:E; [|by apply (IH Hr)].
  apply String.eqb_eq in E as ->. intros [= <-].
  destruct (assoc env y) as [v|]; [by eexists|done].
Qed.

(** The checker is sound for the scripts' expressions and
    declarations: in an environment whose values have their declared
    types, an expression [tsc] accepts with type [t], or a declaration
    [const x: t = e] it accepts, evaluates without throwing to a value
    of type [t], provided its element accesses are in bounds (the one
    unsoundness of [T[]] indexing, [index_out_of_bounds] below).  So a
    run-time type different from the declared one can only come from an
    environment that does not have its declared types: the unchecked
    [$queryRaw<T>] binding. *)
Theorem type_sound (tenv_ : tenv) (env : venv) (e : texpr) (t : ty) :
  env_ok tenv_ env -> in_bounds env e = true ->
  type_of tenv_ e = Typed t \/ check_decl tenv_ t e = Typed t ->
  exists v, eval env e = Resolved v /\ has_type v t = true.
Proof.
  intros Henv Hb [Ht|Ht]; [exact (eval_well_typed tenv_ env Henv e t Hb Ht)|].
  exact (decl_well_typed tenv_ env Henv e t Hb Ht).
Qed.

(** Without the bounds hypothesis the promise fails: [rows[0].mySum] is
    typed [number] on [rows : { mySum: number; }[]], and throws on an
    empty array. *)
Lemma index_out_of_bounds :
  let e := EMember (EIndex (EVar "rows") 0) "mySum" in
  type_of [("rows", TArray (TObject [("mySum", TNumber)]))] e = Typed TNumber /\
  eval [("rows", JArray [])] e =
    Rejected (TypeError "Cannot read properties of undefined (reading 'mySum')").
Proof. split; reflexivity. Qed.
