(* ===== verification/Sql.v ===== *)
(** * The SQL engine behind Prisma

    The scripts send three kinds of statements to the database: Prisma's
    own [SELECT SUM(age) FROM simple] for [aggregate], its [DELETE] and
    [INSERT] for [deleteMany] and [create] (modelled on rows directly in
    [Prisma]), and the three raw [SELECT]s of [src/raw.ts].  This file
    models the fragment of SQL they use, with SQLite's semantics:

    - values [NULL], 64-bit integers and text;
    - statements are first prepared (names are resolved against the
      schema, which is where [no such column] is raised, before any row
      is read) and then executed;
    - a double-quoted token ["x"] is an identifier; when no column has
      that name, SQLite reads it as the string literal ['x'].  The rule
      differs across engines, so it is a parameter of the [Dialect]
      class: [DqIdentThenString] (SQLite), [DqString] (MySQL's default
      mode), [DqIdent] (standard SQL, PostgreSQL);
    - [SUM] skips [NULL]s, is [NULL] when no input is an integer, and
      raises [integer overflow] when a partial sum leaves the 64-bit
      range; [coalesce] returns its first non-[NULL] argument;
    - an aggregate query without [GROUP BY] returns exactly one row, even
      on an empty table.

    Identifiers are compared without regard to ASCII case.  Real numbers
    are not modelled: [SUM] over text is reported as [SqlUnmodelled]. *)

From S2P Require Import Prelude.

Local Open Scope string_scope.
Local Set Warnings "-register-all".

(** ** Values, syntax, schema *)

Inductive sqlval : Type :=
| SNull
| SInt (z : Z)
| SText (s : string).

#[export] Instance sqlval_eq_dec : EqDecision sqlval.
Proof. solve_decision. Defined.

(** An expression as written in the statement text. *)
Inductive sexpr : Type :=
| EIdent (x : string)
| EDQuoted (x : string)
| EStrLit (s : string)
| EIntLit (z : Z)
| ECall (f : string) (args : list sexpr).

(** [SELECT e1 AS a1, ..., en AS an [FROM t];] *)
Record select : Type := Select {
  sel_items : list (sexpr * string);
  sel_from : option string
}.

Record table : Type := Table {
  tbl_name : string;
  tbl_cols : list string;
  tbl_rows : list (list sqlval)
}.

(** Prepared expressions: names resolved to column positions. *)
Inductive rexpr : Type :=
| RCol (i : nat)
| RLit (v : sqlval)
| RSum (e : rexpr)
| RCoalesce (es : list rexpr).

Inductive sql_error : Type :=
| SqlError (msg : string)
| SqlUnmodelled (what : string).

Definition sql_result (A : Type) : Type := outcome sql_error A.

(** ** The dialect: how a double-quoted token is read *)

Inductive dq_rule : Type :=
| DqIdentThenString
| DqString
| DqIdent.

#[export] Instance dq_rule_eq_dec : EqDecision dq_rule.
Proof. solve_decision. Defined.

Class Dialect : Type := { dialect_dq : dq_rule }.

(** ** Preparation *)

Definition ascii_lower (c : ascii) : ascii :=
  let n := Ascii.nat_of_ascii c in
  if (65 <=? n)%nat && (n <=? 90)%nat then Ascii.ascii_of_nat (n + 32) else c.

Fixpoint lower (s : string) : string :=
  match s with
  | EmptyString => EmptyString
  | String c rest => String (ascii_lower c) (lower rest)
  end.

Definition ident_eqb (a b : string) : bool := String.eqb (lower a) (lower b).

(** The position of the first column called [x]. *)
Fixpoint find_col (cols : list string) (x : string) : option nat :=
  match cols with
  | [] => None
  | c :: rest => if ident_eqb c x then Some 0%nat else S <$> find_col rest x
  end.

Fixpoint has_agg (e : rexpr) : bool :=
  match e with
  | RCol _ | RLit _ => false
  | RSum _ => true
  | RCoalesce es => existsb has_agg es
  end.

Section Prepare.
Context `{Dialect}.

Definition resolve_name (cols : list string) (x : string) (dq : bool)
  : sql_result rexpr :=
  match find_col cols x with
  | Some i => Resolved (RCol i)
  | None =>
      if dq && bool_decide (dialect_dq = DqIdentThenString)
      then Resolved (RLit (SText x))
      else Rejected (SqlError ("no such column: " ++ x))
  end.

(** Resolve an expression; [in_agg] is set inside the argument of an
    aggregate, where a second aggregate is a misuse. *)
Fixpoint prepare_expr (cols : list string) (in_agg : bool) (e : sexpr)
  : sql_result rexpr :=
  match e with
  | EIdent x => resolve_name cols x false
  | EDQuoted x =>
      if bool_decide (dialect_dq = DqString) then Resolved (RLit (SText x))
      else resolve_name cols x true
  | EStrLit s => Resolved (RLit (SText s))
  | EIntLit z => Resolved (RLit (SInt z))
  | ECall f args =>
      if ident_eqb f "sum" then
        if in_agg then Rejected (SqlError "misuse of aggregate function sum()")
        else match omapM (prepare_expr cols true) args with
             | Resolved [r] => Resolved (RSum r)
             | Resolved _ => Rejected (SqlError "wrong number of arguments to function sum()")
             | Rejected err => Rejected err
             end
      else if ident_eqb f "coalesce" then
        match omapM (prepare_expr cols in_agg) args with
        | Resolved (r1 :: r2 :: rs) => Resolved (RCoalesce (r1 :: r2 :: rs))
        | Resolved _ => Rejected (SqlError "wrong number of arguments to function coalesce()")
        | Rejected err => Rejected err
        end
      else Rejected (SqlError ("no such function: " ++ f))
  end.
End Prepare.

(** ** Execution *)

Definition INT64_MIN : Z := - 2 ^ 63.
Definition INT64_MAX : Z := 2 ^ 63 - 1.

Definition is_text (v : sqlval) : bool :=
  match v with SText _ => true | _ => false end.

(** SQLite's integer accumulator of [sum()], row by row. *)
Fixpoint sum_int_step (acc : option Z) (vs : list sqlval) : sql_result sqlval :=
  match vs with
  | [] => Resolved (match acc with None => SNull | Some z => SInt z end)
  | SInt z :: rest =>
      let s := (default 0 acc + z)%Z in
      if bool_decide (INT64_MIN <= s <= INT64_MAX)%Z then sum_int_step (Some s) rest
      else Rejected (SqlError "integer overflow")
  | _ :: rest => sum_int_step acc rest
  end.

(** [sum()]: over integers and [NULL]s only, the integer accumulator;
    with a text input the result is a real number. *)
Definition sum_agg (vs : list sqlval) : sql_result sqlval :=
  if existsb is_text vs then Rejected (SqlUnmodelled "sum() over text is a real number")
  else sum_int_step None vs.

Fixpoint first_non_null (vs : list sqlval) : sqlval :=
  match vs with
  | [] => SNull
  | SNull :: rest => first_non_null rest
  | v :: _ => v
  end.

Definition col_val (row : list sqlval) (i : nat) : sqlval := default SNull (row !! i).

(** An expression on one row.  [RSum] never reaches this function:
    [prepare_expr] rejects an aggregate inside an aggregate, and a query
    with an aggregate is evaluated by [eval_group]. *)
Fixpoint eval_row (row : list sqlval) (e : rexpr) : sqlval :=
  match e with
  | RCol i => col_val row i
  | RLit v => v
  | RSum _ => SNull
  | RCoalesce es => first_non_null (map (eval_row row) es)
  end.

(** An expression over all rows of an aggregate query.  Every aggregate
    accumulates over the whole scan before the output row is built, so
    an error in any argument of [coalesce] is raised.  A bare column
    takes its value from one row of the group, which SQLite leaves
    unspecified; this model takes the last row. *)
Fixpoint eval_group (rows : list (list sqlval)) (e : rexpr) : sql_result sqlval :=
  match e with
  | RCol i => Resolved (default SNull ((fun r => col_val r i) <$> last rows))
  | RLit v => Resolved v
  | RSum e' => sum_agg (map (fun r => eval_row r e') rows)
  | RCoalesce es =>
      let? vs := omapM (eval_group rows) es in Resolved (first_non_null vs)
  end%promise.

Section Execute.
Context `{Dialect}.

Definition prepare_items (cols : list string) (items : list (sexpr * string))
  : sql_result (list (rexpr * string)) :=
  omapM (fun '(e, a) => let? r := prepare_expr cols false e in Resolved (r, a))%promise items.

(** The columns and rows the [FROM] clause names; without [FROM], one
    row with no column. *)
Definition source (t : table) (from : option string)
  : sql_result (list string * list (list sqlval)) :=
  match from with
  | None => Resolved ([], [[]])
  | Some n =>
      if ident_eqb n (tbl_name t) then Resolved (tbl_cols t, tbl_rows t)
      else Rejected (SqlError ("no such table: " ++ n))
  end.

(** Prepare, then run, a [SELECT] on the database made of table [t];
    the result rows map each alias to its value. *)
Definition exec_select (t : table) (q : select)
  : sql_result (list (list (string * sqlval))) :=
  (let? src := source t (sel_from q) in
   let? items := prepare_items src.1 (sel_items q) in
   if existsb (fun '(r, _) => has_agg r) items then
     let? row := omapM (fun '(r, a) => let? v := eval_group src.2 r in Resolved (a, v)) items in
     Resolved [row]
   else Resolved (map (fun row => map (fun '(r, a) => (a, eval_row row r)) items) src.2))%promise.
End Execute.

(** ** Reference specification of [SUM] *)

Definition int_of (v : sqlval) : option Z :=
  match v with SInt z => Some z | _ => None end.

(** The integer inputs of an aggregate, in row order. *)
Definition int_inputs (vs : list sqlval) : list Z := omap int_of vs.

(** What [SUM] means: [NULL] when no input is an integer, otherwise the
    mathematical sum of the integer inputs. *)
Definition sum_spec (vs : list sqlval) : sqlval :=
  match int_inputs vs with
  | [] => SNull
  | l => SInt (sum_Z l)
  end.

(** The 32-bit range of a Prisma [Int] column. *)
Definition int32 (z : Z) : Prop := (- 2 ^ 31 <= z < 2 ^ 31)%Z.

Lemma int_inputs_cons_int z vs : int_inputs (SInt z :: vs) = z :: int_inputs vs.
Proof. reflexivity. Qed.

Lemma int_inputs_cons_other v vs : int_of v = None -> int_inputs (v :: vs) = int_inputs vs.
Proof. intros H. unfold int_inputs. cbn. by rewrite H. Qed.

Lemma sum_Z_abs_bound (l : list Z) (b : Z) :
  Forall (fun x => Z.abs x <= b)%Z l ->
  (sum_Z (map Z.abs l) <= Z.of_nat (length l) * b)%Z.
Proof.
  induction 1 as [|x l Hx _ IH]; simpl; [lia|]. rewrite Nat2Z.inj_succ. lia.
Qed.

Lemma sum_Z_abs_nonneg (l : list Z) : (0 <= sum_Z (map Z.abs l))%Z.
Proof. induction l as [|x l IH]; simpl; lia. Qed.

(** The accumulator computes the sum as long as the magnitudes stay
    below the 64-bit bound. *)
Lemma sum_int_step_spec (acc : option Z) (vs : list sqlval) :
  (Z.abs (default 0 acc) + sum_Z (map Z.abs (int_inputs vs)) <= INT64_MAX)%Z ->
  sum_int_step acc vs =
    Resolved (match acc, int_inputs vs with
              | None, [] => SNull
              | _, l => SInt (default 0 acc + sum_Z l)%Z
              end).
Proof.
  revert acc. induction vs as [|v vs IH]; intros acc Hb.
  - destruct acc; simpl; [by rewrite Z.add_0_r | done].
  - destruct v as [|z|s]; cbn [sum_int_step].
    + rewrite (int_inputs_cons_other SNull) in Hb |- * by done. by apply IH.
    + rewrite int_inputs_cons_int in Hb |- *. simpl in Hb.
      unfold INT64_MIN, INT64_MAX in *.
      pose proof (sum_Z_abs_nonneg (int_inputs vs)).
      rewrite bool_decide_true by lia.
      rewrite IH; cbn [default id]; [| lia].
      change (sum_Z (z :: int_inputs vs)) with (z + sum_Z (int_inputs vs))%Z.
      destruct acc; f_equal; f_equal; simpl; lia.
    + rewrite (int_inputs_cons_other (SText s)) in Hb |- * by done. by apply IH.
Qed.

(** A column whose every row holds a NULL or a 32-bit integer
    (Prisma's [Int?]); no text value is among its inputs. *)
Definition int32_column (vs : list sqlval) : Prop :=
  Forall (fun v => v = SNull \/ exists z, v = SInt z /\ int32 z) vs.

Lemma int32_column_no_text vs : int32_column vs -> existsb is_text vs = false.
Proof.
  induction 1 as [|v vs Hv _ IH]; simpl; [done|].
  rewrite IH. by destruct Hv as [-> | [z [-> _]]].
Qed.

Lemma int32_column_inputs vs :
  int32_column vs -> Forall (fun z => Z.abs z <= 2 ^ 31)%Z (int_inputs vs).
Proof.
  induction 1 as [|v vs Hv _ IH]; [constructor|].
  destruct Hv as [-> | [z [-> Hz]]]; [done|].
  rewrite int_inputs_cons_int. constructor; [unfold int32 in Hz; lia | done].
Qed.

Lemma length_int_inputs vs : length (int_inputs vs) <= length vs.
Proof. apply length_omap_le. Qed.

#[export] Hint Resolve int32_column_no_text int32_column_inputs : prisma.

(** SUM on a nullable 32-bit column of fewer than 2^32 rows is the declarative sum. *)
Lemma sum_agg_int32_spec (vs : list sqlval) :
  int32_column vs -> (Z.of_nat (length vs) < 2 ^ 32)%Z ->
  sum_agg vs = Resolved (sum_spec vs).
Proof.
  intros Hcol Hlen. unfold sum_agg. rewrite int32_column_no_text by done.
  rewrite sum_int_step_spec.
  - unfold sum_spec. by destruct (int_inputs vs).
  - simpl. pose proof (sum_Z_abs_bound _ _ (int32_column_inputs _ Hcol)) as Hs.
    pose proof (length_int_inputs vs) as Hl. unfold INT64_MAX. nia.
Qed.

(** ** Overflow of [SUM]: the checked accumulator against prefix sums *)

Definition in_int64 (z : Z) : bool := bool_decide (INT64_MIN <= z <= INT64_MAX)%Z.

(** Every running total [a + l_1 + ... + l_k], for [1 <= k <= |l|], is a
    64-bit integer. *)
Definition prefixes_fit (a : Z) (l : list Z) : bool :=
  forallb (fun k => in_int64 (a + sum_Z (take k l))) (seq 1 (length l)).

Lemma prefixes_fit_nil a : prefixes_fit a [] = true.
Proof. reflexivity. Qed.

Lemma prefixes_fit_cons a z l :
  prefixes_fit a (z :: l) = in_int64 (a + z) && prefixes_fit (a + z) l.
Proof.
  unfold prefixes_fit. cbn [length seq forallb]. rewrite <- seq_shift, forallb_map.
  cbn [take sum_Z foldr]. rewrite Z.add_0_r. f_equal.
  apply forallb_ext. intros k. cbn [take foldr]. by rewrite Z.add_assoc.
Qed.

Lemma sum_int_step_prefixes (acc : option Z) (vs : list sqlval) :
  sum_int_step acc vs =
    if prefixes_fit (default 0%Z acc) (int_inputs vs)
    then Resolved (match acc, int_inputs vs with
                   | None, [] => SNull
                   | _, l => SInt (default 0 acc + sum_Z l)%Z
                   end)
    else Rejected (SqlError "integer overflow").
Proof.
  revert acc. induction vs as [|v vs IH]; intros acc.
  - destruct acc; simpl; [by rewrite Z.add_0_r | done].
  - destruct v as [|z|t]; cbn [sum_int_step].
    + rewrite (int_inputs_cons_other SNull) by done. apply IH.
    + rewrite int_inputs_cons_int, prefixes_fit_cons. unfold in_int64.
      case_bool_decide; [|done]. rewrite IH. simpl.
      destruct (prefixes_fit _ _); [|done]. destruct acc, (int_inputs vs); cbn [default]; by rewrite ?Z.add_assoc.
    + rewrite (int_inputs_cons_other (SText t)) by done. apply IH.
Qed.

(** SQLite's [SUM] over integers, which checks its 64-bit
    accumulator row by row, is the declarative sum with an overflow
    error: it is [sum_spec] when every running total fits in 64 bits and
    fails with "integer overflow" as soon as one does not, even if the
    final sum would fit again. *)
Theorem sum_agg_overflow (vs : list sqlval) :
  existsb is_text vs = false ->
  sum_agg vs = if prefixes_fit 0%Z (int_inputs vs) then Resolved (sum_spec vs)
               else Rejected (SqlError "integer overflow").
Proof.
  intros Hno. unfold sum_agg. rewrite Hno, sum_int_step_prefixes. simpl.
  unfold sum_spec. by destruct (prefixes_fit _ _), (int_inputs vs).
Qed.

(** ** Induction on expressions with their argument lists *)

Section SexprInd.
Variable P : sexpr -> Prop.
Hypothesis HIdent : forall x, P (EIdent x).
Hypothesis HDQuoted : forall x, P (EDQuoted x).
Hypothesis HStrLit : forall s, P (EStrLit s).
Hypothesis HIntLit : forall z, P (EIntLit z).
Hypothesis HCall : forall f args, Forall P args -> P (ECall f args).

Fixpoint sexpr_ind' (e : sexpr) : P e :=
  match e with
  | EIdent x => HIdent x
  | EDQuoted x => HDQuoted x
  | EStrLit s => HStrLit s
  | EIntLit z => HIntLit z
  | ECall f args =>
      HCall f args
        ((fix go (l : list sexpr) : Forall P l :=
            match l with
            | [] => List.Forall_nil _
            | a :: l' => List.Forall_cons _ a l' (sexpr_ind' a) (go l')
            end) args)
  end.
End SexprInd.

(** ** Well-formedness of prepared statements *)

(** Every column a prepared expression reads is a column of the source. *)
Fixpoint rexpr_wf (n : nat) (e : rexpr) : bool :=
  match e with
  | RCol i => (i <? n)%nat
  | RLit _ => true
  | RSum e' => rexpr_wf n e'
  | RCoalesce es => forallb (rexpr_wf n) es
  end.

(** An expression contains an aggregate, read on the statement text. *)
Fixpoint sexpr_has_agg (e : sexpr) : bool :=
  match e with
  | ECall f args => ident_eqb f "sum" || existsb sexpr_has_agg args
  | _ => false
  end.

Lemma find_col_lt cols x i : find_col cols x = Some i -> (i < length cols)%nat.
Proof.
  revert i. induction cols as [|c cols IH]; intros i; simpl; [discriminate|].
  destruct (ident_eqb c x); [intros [= <-]; lia|].
  destruct (find_col cols x) as [j|] eqn:E; simpl; [|discriminate].
  intros [= <-]. specialize (IH j eq_refl). lia.
Qed.

(** The arguments of a call, prepared one by one, inherit what holds of
    each argument's preparation. *)
Lemma omapM_prepare_Forall {D : Dialect} (Q : sexpr -> rexpr -> Prop) cols b args rs :
  Forall (fun a => forall b r, prepare_expr cols b a = Resolved r -> Q a r) args ->
  omapM (prepare_expr cols b) args = Resolved rs -> Forall2 Q args rs.
Proof.
  intros Hall Hm. apply omapM_Resolved_iff in Hm.
  induction Hm as [|a r args' rs' Ha _ IH]; [constructor|].
  inversion Hall as [|? ? Hp Hrest]; subst. constructor; eauto.
Qed.

Lemma resolve_name_wf {D : Dialect} cols x dq r :
  resolve_name cols x dq = Resolved r -> rexpr_wf (length cols) r = true /\ has_agg r = false.
Proof.
  unfold resolve_name. destruct (find_col cols x) as [i|] eqn:E.
  - intros [= <-]. simpl. apply find_col_lt in E. split; [apply Nat.ltb_lt|]; done.
  - case_match; [|discriminate]. by intros [= <-].
Qed.

(** Name resolution yields in-range column references and keeps the aggregates. *)
Lemma prepare_expr_resolves_wf {D : Dialect} cols b e r :
  prepare_expr cols b e = Resolved r ->
  rexpr_wf (length cols) r = true /\ has_agg r = sexpr_has_agg e.
Proof.
  revert b r. induction e as [x|x|s|z|f args IH] using sexpr_ind'; intros b r; simpl.
  - apply resolve_name_wf.
  - case_bool_decide; [by intros [= <-]|]. apply resolve_name_wf.
  - by intros [= <-].
  - by intros [= <-].
  - destruct (ident_eqb f "sum") eqn:Ef; [destruct b; [discriminate|]|].
    + destruct (omapM (prepare_expr cols true) args) as [rs|] eqn:Hm; [|discriminate].
      destruct rs as [|r1 [|]]; try discriminate. intros [= <-].
      apply omapM_prepare_Forall with (Q := fun a r => rexpr_wf (length cols) r = true) in Hm;
        [| eapply Forall_impl; [exact IH|]; intros a Ha b' r' Hr; apply (Ha b' r' Hr)].
      inversion Hm; subst. by split.
    + destruct (ident_eqb f "coalesce"); [|discriminate].
      destruct (omapM (prepare_expr cols b) args) as [rs|] eqn:Hm; [|discriminate].
      apply omapM_prepare_Forall with
        (Q := fun a r => rexpr_wf (length cols) r = true /\ has_agg r = sexpr_has_agg a) in Hm;
        [|exact IH].
      assert (forallb (rexpr_wf (length cols)) rs = true /\
              existsb has_agg rs = existsb sexpr_has_agg args) as [Hw Ha].
      { clear IH. induction Hm as [|a r' args' rs' [Hw Ha] _ [IHw IHa]]; simpl; [done|].
        by rewrite Hw, Ha, IHw, IHa. }
      destruct rs as [|r1 [|r2 rs]]; try discriminate. intros [= <-]. done.
Qed.

(** ** Behaviour of the statements *)

Lemma prepare_items_agg {D : Dialect} cols items ritems :
  prepare_items cols items = Resolved ritems ->
  existsb (fun '(r, _) => has_agg r) ritems = existsb (fun '(e, _) => sexpr_has_agg e) items.
Proof.
  unfold prepare_items. intros Hm. apply omapM_Resolved_iff in Hm.
  induction Hm as [|[e a] [r a'] items' ritems' Hr _ IH]; simpl; [done|].
  destruct (prepare_expr cols false e) as [r'|] eqn:He; simpl in Hr; [|discriminate].
  injection Hr as <- <-. apply prepare_expr_resolves_wf in He as [_ ->]. by rewrite IH.
Qed.

(** A [SELECT] whose text calls [SUM] returns exactly one row when it
    succeeds, even on an empty table: [rawInt[0]] and [badInt[0]] of
    [src/raw.ts] are never [undefined]. *)
Theorem exec_select_aggregate_one_row {D : Dialect} (t : table) (q : select) rows :
  existsb (fun '(e, _) => sexpr_has_agg e) (sel_items q) = true ->
  exec_select t q = Resolved rows -> length rows = 1%nat.
Proof.
  intros Hagg. unfold exec_select.
  destruct (source t (sel_from q)) as [[cols srows]|]; simpl; [|discriminate].
  destruct (prepare_items cols (sel_items q)) as [ritems|] eqn:Hp; simpl; [|discriminate].
  rewrite (prepare_items_agg _ _ _ Hp), Hagg.
  destruct (omapM _ ritems); simpl; [|discriminate]. by intros [= <-].
Qed.

(** How a double-quoted token that names no column is read, per
    dialect: SQLite and MySQL read it as a string literal, standard SQL
    rejects it.  This is what makes ["4"], [""] and ["bad"] of
    [src/raw.ts] text values under SQLite. *)
Theorem dquoted_resolution {D : Dialect} cols b x :
  find_col cols x = None ->
  prepare_expr cols b (EDQuoted x) =
    match dialect_dq with
    | DqIdent => Rejected (SqlError ("no such column: " ++ x))
    | _ => Resolved (RLit (SText x))
    end.
Proof.
  intros Hx. simpl. unfold resolve_name. rewrite Hx.
  by destruct dialect_dq.
Qed.

(** A bare identifier that names no column is rejected in every dialect,
    before any row is read. *)
Lemma prepare_ident_missing {D : Dialect} cols b x :
  find_col cols x = None ->
  prepare_expr cols b (EIdent x) = Rejected (SqlError ("no such column: " ++ x)).
Proof. intros Hx. simpl. unfold resolve_name. by rewrite Hx. Qed.

(** A one-column statement, once its name resolution is known. *)
Lemma exec_select_single {D : Dialect} t e a from cols rows r :
  source t from = Resolved (cols, rows) ->
  prepare_items cols [(e, a)] = Resolved [(r, a)] ->
  exec_select t (Select [(e, a)] from) =
    if has_agg r then obind (eval_group rows r) (fun v => Resolved [[(a, v)]])
    else Resolved (map (fun row => [(a, eval_row row r)]) rows).
Proof.
  intros Hs Hp. unfold exec_select. simpl. rewrite Hs. simpl. rewrite Hp. simpl.
  rewrite orb_false_r. destruct (has_agg r); [|done].
  simpl. by destruct (eval_group rows r).
Qed.
