(* ===== verification/SqlText.v ===== *)
(** * The text of the SQL statements

    [src/raw.ts] sends SQL as text, in tagged template literals; Prisma
    passes the text to the engine, which tokenizes and parses it before
    preparing it.  This file models that front end for the fragment the
    scripts use: a lexer (identifiers, double- and single-quoted tokens
    with the doubled-quote escape, unsigned integers, [( ) , ;], white
    space) and a recursive-descent parser of
    [SELECT e AS a, ... [FROM t] [;]] with function calls.

    Both run on fuel: the lexer consumes at least one character per step
    and the parser at least one token, so the length of the input is
    enough for the lexer ([lex_fuel_enough], [lex_not_out_of_fuel]); the
    parser is given the number of tokens.  A statement outside the
    fragment is reported as [SqlUnmodelled], never as a syntax error the
    engine might not raise.  The front end is part of the database, a
    library the scripts only call: it is modelled so that the three
    texts of [src/raw.ts] are read as the engine reads them
    ([Raw.parse_raw_int_text] and its siblings). *)

From S2P Require Import Prelude Sql.
From Stdlib Require Import DecimalString DecimalN.

Local Open Scope string_scope.
Local Open Scope promise_scope.

(** ** Tokens *)

Inductive token : Type :=
| TIdent (x : string)
| TDq (x : string)
| TSq (s : string)
| TInt (n : N)
| TLParen
| TRParen
| TComma
| TSemi.

Definition dq_char : ascii := Ascii.ascii_of_nat 34.
Definition sq_char : ascii := Ascii.ascii_of_nat 39.

Definition is_space_c (c : ascii) : bool :=
  match Ascii.nat_of_ascii c with
  | 9 | 10 | 11 | 12 | 13 | 32 => true
  | _ => false
  end.

Definition is_digit_c (c : ascii) : bool :=
  let n := Ascii.nat_of_ascii c in (48 <=? n)%nat && (n <=? 57)%nat.

Definition is_alpha_c (c : ascii) : bool :=
  let n := Ascii.nat_of_ascii c in
  ((65 <=? n)%nat && (n <=? 90)%nat) || ((97 <=? n)%nat && (n <=? 122)%nat) || (n =? 95)%nat.

Definition is_alnum_c (c : ascii) : bool := is_alpha_c c || is_digit_c c.

(** ** Lexer *)

(** The body of a token quoted with [q], after the opening quote: a
    doubled [q] stands for one [q]; the body ends at the first single
    [q].  [None] when the quote is never closed. *)
Fixpoint read_quoted (q : ascii) (s : string) : option (string * string) :=
  match s with
  | EmptyString => None
  | String c rest =>
      if Ascii.eqb c q then
        match rest with
        | String c' rest' =>
            if Ascii.eqb c' q then (fun '(x, r) => (String q x, r)) <$> read_quoted q rest'
            else Some (EmptyString, rest)
        | EmptyString => Some (EmptyString, EmptyString)
        end
      else (fun '(x, r) => (String c x, r)) <$> read_quoted q rest
  end.

(** The value of a string of decimal digits. *)
Definition digits_value (w : string) : N :=
  match NilZero.uint_of_string w with
  | Some u => N.of_uint u
  | None => 0%N
  end.

Definition unrecognized (c : ascii) : sql_error :=
  SqlError ("unrecognized token: " ++ String c EmptyString).

Fixpoint lex_fuel (fuel : nat) (s : string) : sql_result (list token) :=
  match fuel with
  | O => Rejected (SqlUnmodelled "lexer out of fuel")
  | S f =>
      match s with
      | EmptyString => Resolved []
      | String c rest =>
          let n := Ascii.nat_of_ascii c in
          if is_space_c c then lex_fuel f rest
          else if (n =? 40)%nat then let? ts := lex_fuel f rest in Resolved (TLParen :: ts)
          else if (n =? 41)%nat then let? ts := lex_fuel f rest in Resolved (TRParen :: ts)
          else if (n =? 44)%nat then let? ts := lex_fuel f rest in Resolved (TComma :: ts)
          else if (n =? 59)%nat then let? ts := lex_fuel f rest in Resolved (TSemi :: ts)
          else if is_alpha_c c then
            let '(w, r) := take_while is_alnum_c rest in
            let? ts := lex_fuel f r in Resolved (TIdent (String c w) :: ts)
          else if is_digit_c c then
            let '(w, r) := take_while is_digit_c rest in
            let? ts := lex_fuel f r in Resolved (TInt (digits_value (String c w)) :: ts)
          else if (n =? 34)%nat then
            match read_quoted c rest with
            | Some (x, r) => let? ts := lex_fuel f r in Resolved (TDq x :: ts)
            | None => Rejected (unrecognized c)
            end
          else if (n =? 39)%nat then
            match read_quoted c rest with
            | Some (x, r) => let? ts := lex_fuel f r in Resolved (TSq x :: ts)
            | None => Rejected (unrecognized c)
            end
          else Rejected (unrecognized c)
      end
  end.

Definition lex (s : string) : sql_result (list token) := lex_fuel (S (String.length s)) s.

(** ** Parser *)

Definition is_kw (k x : string) : bool := ident_eqb x k.

Definition reserved (x : string) : bool := is_kw "select" x || is_kw "as" x || is_kw "from" x.

Fixpoint parse_expr (fuel : nat) (ts : list token) : option (sexpr * list token) :=
  match fuel with
  | O => None
  | S f =>
      match ts with
      | TIdent x :: TLParen :: TRParen :: rest =>
          if reserved x then None else Some (ECall x [], rest)
      | TIdent x :: TLParen :: rest =>
          if reserved x then None
          else match parse_arg_list f rest with
               | Some (args, rest') => Some (ECall x args, rest')
               | None => None
               end
      | TIdent x :: rest => if reserved x then None else Some (EIdent x, rest)
      | TDq x :: rest => Some (EDQuoted x, rest)
      | TSq s :: rest => Some (EStrLit s, rest)
      | TInt n :: rest => Some (EIntLit (Z.of_N n), rest)
      | _ => None
      end
  end
(** The arguments of a call after its [(]: expressions separated by
    commas, up to the closing [)]. *)
with parse_arg_list (fuel : nat) (ts : list token) : option (list sexpr * list token) :=
  match fuel with
  | O => None
  | S f =>
      match parse_expr f ts with
      | Some (e, TComma :: rest) =>
          match parse_arg_list f rest with
          | Some (es, rest') => Some (e :: es, rest')
          | None => None
          end
      | Some (e, TRParen :: rest) => Some ([e], rest)
      | _ => None
      end
  end.

Definition parse_item (fuel : nat) (ts : list token) : option ((sexpr * string) * list token) :=
  match parse_expr fuel ts with
  | Some (e, TIdent kw :: TIdent a :: rest) =>
      if is_kw "as" kw && negb (reserved a) then Some ((e, a), rest) else None
  | _ => None
  end.

Fixpoint parse_items (fuel : nat) (ts : list token) : option (list (sexpr * string) * list token) :=
  match fuel with
  | O => None
  | S f =>
      match parse_item f ts with
      | Some (it, TComma :: rest) =>
          match parse_items f rest with
          | Some (its, rest') => Some (it :: its, rest')
          | None => None
          end
      | Some (it, rest) => Some ([it], rest)
      | None => None
      end
  end.

(** The end of a statement: nothing, or a [;]. *)
Definition at_end (ts : list token) : bool :=
  match ts with [] | [TSemi] => true | _ => false end.

Definition parse_select (ts : list token) : option select :=
  match ts with
  | TIdent kw :: rest =>
      if is_kw "select" kw then
        match parse_items (S (length rest)) rest with
        | Some (items, TIdent kf :: TIdent t :: rest') =>
            if is_kw "from" kf && negb (reserved t) && at_end rest'
            then Some (Select items (Some t)) else None
        | Some (items, rest') => if at_end rest' then Some (Select items None) else None
        | None => None
        end
      else None
  | _ => None
  end.

(** The text of a statement, read by the engine. *)
Definition parse_sql (s : string) : sql_result select :=
  let? ts := lex s in
  match parse_select ts with
  | Some q => Resolved q
  | None => Rejected (SqlUnmodelled "statement outside the modelled SQL fragment")
  end.

(** ** The lexer always has enough fuel *)

Lemma read_quoted_length q s x r :
  read_quoted q s = Some (x, r) -> String.length r < String.length s.
Proof.
  remember (String.length s) as n eqn:En. revert s x r En.
  induction n as [n IH] using lt_wf_ind. intros s x r En.
  destruct s as [|c s]; simpl; [discriminate|]. simpl in En.
  destruct (Ascii.eqb c q).
  - destruct s as [|c' s']; [intros [= <- <-]; simpl in *; lia|].
    destruct (Ascii.eqb c' q).
    + destruct (read_quoted q s') as [[x' r']|] eqn:E; simpl; [|discriminate].
      intros [= <- <-]. simpl in En.
      specialize (IH (String.length s') ltac:(lia) s' x' r' eq_refl E). lia.
    + intros [= <- <-]. simpl in *. lia.
  - destruct (read_quoted q s) as [[x' r']|] eqn:E; simpl; [|discriminate].
    intros [= <- <-]. specialize (IH (String.length s) ltac:(lia) s x' r' eq_refl E). lia.
Qed.

(** Case analysis on the scans of one lexer step, each with the bound on
    the length of what it leaves. *)
Ltac lex_cases rest :=
  repeat match goal with
  | |- context [take_while ?p rest] =>
      let w := fresh "w" in let r := fresh "r" in let E := fresh "E" in
      destruct (take_while p rest) as [w r] eqn:E; apply take_while_length in E
  | |- context [read_quoted ?q rest] =>
      let x := fresh "x" in let r := fresh "r" in let E := fresh "E" in
      destruct (read_quoted q rest) as [[x r]|] eqn:E; [apply read_quoted_length in E|]
  end.

Lemma lex_fuel_irrel f1 f2 s :
  String.length s < f1 -> String.length s < f2 -> lex_fuel f1 s = lex_fuel f2 s.
Proof.
  revert f2 s. induction f1 as [|f1 IH]; intros f2 s H1 H2; [lia|].
  destruct f2 as [|f2]; [lia|].
  destruct s as [|c rest]; [reflexivity|]. simpl in H1, H2. cbn [lex_fuel].
  assert (Hrec : forall s', String.length s' <= String.length rest -> lex_fuel f1 s' = lex_fuel f2 s')
    by (intros; apply IH; lia).
  lex_cases rest; repeat (rewrite Hrec by lia); reflexivity.
Qed.

(** With more fuel than the text has characters, the lexer computes the
    same tokens (or the same lexical error) as [lex]. *)
Theorem lex_fuel_enough (f : nat) (s : string) :
  String.length s < f -> lex_fuel f s = lex s.
Proof. intros H. apply lex_fuel_irrel; [done | unfold lex; lia]. Qed.

(** The lexer is total on the fuel [lex] gives it: on no text does
    it stop with the out-of-fuel outcome; it returns the tokens or a
    lexical error. *)
Theorem lex_not_out_of_fuel (s : string) : lex s <> Rejected (SqlUnmodelled "lexer out of fuel").
Proof.
  unfold lex. remember (S (String.length s)) as f eqn:Ef.
  assert (Hf : String.length s < f) by lia. clear Ef. revert s Hf.
  induction f as [|f IH]; intros s Hf; [lia|].
  destruct s as [|c rest]; [discriminate|]. simpl in Hf. cbn [lex_fuel].
  assert (Hrec : forall s', String.length s' <= String.length rest ->
                 forall A (k : list token -> sql_result A),
                 (forall ts, k ts <> Rejected (SqlUnmodelled "lexer out of fuel")) ->
                 obind (lex_fuel f s') k <> Rejected (SqlUnmodelled "lexer out of fuel")).
  { intros s' Hs' A k Hk. specialize (IH s' ltac:(lia)).
    revert IH. destruct (lex_fuel f s'); simpl; [intros _; apply Hk | intros Hne [= ->]; by apply Hne]. }
  destruct (is_space_c c); [apply IH; lia|].
  lex_cases rest; repeat case_match; try discriminate; apply Hrec; try lia; discriminate.
Qed.
