(* ===== verification/Prisma.v ===== *)
(** * The Prisma client the scripts use

    The world the scripts run in: the rows of table [simple], the
    clients that are open, what was written to the console, and the
    outcome of the database round trips still to come (fault injection:
    a round trip either proceeds or rejects with the error the list
    holds, which covers an unreachable database, a lost connection or a
    constraint failure without committing to one).  Every operation
    here is one call the scripts make on [PrismaClient]:

    - [new_client] is [new PrismaClient()]: it only allocates the client
      (Prisma connects lazily, on the first query);
    - [disconnect] is [prisma.$disconnect()];
    - [deleteMany], [create], [aggregate_sum_age] are
      [prisma.simple.deleteMany({})], [prisma.simple.create({data})],
      [prisma.simple.aggregate({_sum: {age: true}})];
    - [query_raw] is [prisma.$queryRaw`...`]: the engine parses the
      text ([SqlText.parse_sql]) and runs the statement ([Sql]); the
      rows are decoded into JavaScript objects without being checked
      against the declared type.

    The [Backend] class is the interface between the client and the
    database: the SQL dialect, and how the driver decodes an integer
    column of a raw query (a JavaScript number, or a BigInt as Prisma
    does for 64-bit integer columns).  Every theorem is stated for all
    backends unless it names one.

    The frame predicates [keeps_stdout], [keeps_clients] and
    [leaves_client_open], with their lemmas for [pbind] and [pcatch]
    (hint database [prisma]), say what a computation leaves unchanged;
    the runners' theorems are proved by composing them. *)

From S2P Require Import Prelude JsValue Sql SqlText.
From stdpp Require Import gmap.

Local Open Scope string_scope.
Local Set Warnings "-clear-no-such-hyp".

(** ** The model [simple] and the world *)

(** A row of [simple]: [name String], [age Int?]. *)
Record simple_row : Type := SimpleRow {
  name : string;
  age : option Z
}.

Record world : Type := World {
  w_table : list simple_row;
  w_open : gset nat;
  w_next_client : nat;
  w_stdout : list string;
  w_stderr : list js_error;
  w_faults : list (option js_error)
}.

Definition set_table (t : list simple_row) (w : world) : world :=
  World t (w_open w) (w_next_client w) (w_stdout w) (w_stderr w) (w_faults w).
Definition set_open (o : gset nat) (w : world) : world :=
  World (w_table w) o (w_next_client w) (w_stdout w) (w_stderr w) (w_faults w).
Definition set_faults (f : list (option js_error)) (w : world) : world :=
  World (w_table w) (w_open w) (w_next_client w) (w_stdout w) (w_stderr w) f.

(** The computations of the scripts: [async] functions over the world. *)
Abbreviation M := (PM world js_error).

(** ** The backend *)

Inductive int_decoding : Type :=
| IntAsNumber
| IntAsBigInt.

Class Backend : Type := {
  backend_dq : dq_rule;
  backend_raw_int : int_decoding
}.

#[export] Instance backend_dialect `{Backend} : Dialect := {| dialect_dq := backend_dq |}.

(** SQLite's rule for double quotes, with integers decoded as numbers. *)
#[export] Instance sqlite_backend : Backend :=
  {| backend_dq := DqIdentThenString; backend_raw_int := IntAsNumber |}.

(** ** The console *)

(** [console.log(msg)]. *)
Definition console_log (msg : string) : M unit :=
  pmodify (fun w => World (w_table w) (w_open w) (w_next_client w)
                          (w_stdout w ++ [msg]) (w_stderr w) (w_faults w)).

(** [console.error(e)]. *)
Definition console_error (e : js_error) : M unit :=
  pmodify (fun w => World (w_table w) (w_open w) (w_next_client w)
                          (w_stdout w) (w_stderr w ++ [e]) (w_faults w)).

(** A synchronous expression that may throw, inside an [async] body. *)
Definition plift {A} (o : outcome js_error A) : M A := fun w => (o, w).

(** The line feed of the template literals. *)
Definition nl : string := String (Ascii.ascii_of_nat 10) EmptyString.

(** ** Clients *)

(** [new PrismaClient()]. *)
Definition new_client : M nat :=
  fun w => (Resolved (w_next_client w),
            World (w_table w) (union {[w_next_client w]} (w_open w)) (S (w_next_client w))
                  (w_stdout w) (w_stderr w) (w_faults w)).

(** [prisma.$disconnect()].  The scripts never await it; the world is
    updated when it settles, and nothing the scripts do afterwards
    depends on the order. *)
Definition disconnect (c : nat) : M unit :=
  pmodify (fun w => set_open (difference (w_open w) {[c]}) w).

(** One round trip to the database: the next injected outcome decides
    whether [op] runs.  An empty list means every round trip succeeds. *)
Definition round_trip {A} (op : M A) : M A :=
  fun w => match w_faults w with
           | Some e :: rest => (Rejected e, set_faults rest w)
           | None :: rest => op (set_faults rest w)
           | [] => op w
           end.

(** ** Writes *)

(** [prisma.simple.deleteMany({})]: resolves with the number of rows
    deleted. *)
Definition deleteMany : M nat :=
  round_trip (fun w => (Resolved (length (w_table w)), set_table [] w)).

Definition int32_dec (z : Z) : bool := bool_decide (- 2 ^ 31 <= z < 2 ^ 31)%Z.

(** [prisma.simple.create({data})]: the client validates the value of
    an [Int] field before sending it, then the row is inserted. *)
Definition create (r : simple_row) : M simple_row :=
  match age r with
  | Some z =>
      if int32_dec z then round_trip (fun w => (Resolved r, set_table (w_table w ++ [r]) w))
      else preject (PrismaClientValidationError
                      "Argument age: Unable to fit value into a 32-bit signed integer")
  | None => round_trip (fun w => (Resolved r, set_table (w_table w ++ [r]) w))
  end.

(** ** Reads *)

Definition row_to_sql (r : simple_row) : list sqlval :=
  [SText (name r); match age r with Some z => SInt z | None => SNull end].

(** Table [simple] as the engine sees it. *)
Definition simple_table (rows : list simple_row) : table :=
  Table "simple" ["name"; "age"] (map row_to_sql rows).

(** The statement Prisma sends for [aggregate({_sum: {age: true}})]. *)
Definition sum_age_stmt : select :=
  Select [(ECall "SUM" [EIdent "age"], "_sum_age")] (Some "simple").

(** The first value of the first row of a result. *)
Definition first_value (rows : list (list (string * sqlval))) : sqlval :=
  default SNull (snd <$> (mbind head (head rows))).

(** A value of an [Int] field as Prisma returns it from an aggregate:
    the engine sends the 64-bit integer as a JSON number, which the
    client parses into a double, rounding it beyond 2^53. *)
Definition decode_int_field (v : sqlval) : jsval :=
  match v with
  | SInt z => JNumber (JFin (double_of_int z))
  | SText s => JString s
  | SNull => JNull
  end.

Definition engine_error (err : sql_error) : js_error :=
  match err with
  | SqlError msg => PrismaClientUnknownRequestError msg
  | SqlUnmodelled what => PrismaClientUnknownRequestError what
  end.

(** [prisma.simple.aggregate({_sum: {age: true}})]: resolves with
    [{_sum: {age: v}}]. *)
Definition aggregate_sum_age `{Backend} : M jsval :=
  round_trip (fun w =>
    match exec_select (simple_table (w_table w)) sum_age_stmt with
    | Resolved rows =>
        (Resolved (JObject [("_sum", JObject [("age", decode_int_field (first_value rows))])]), w)
    | Rejected err => (Rejected (engine_error err), w)
    end).

(** A value of a raw query's column, decoded by the driver: an integer
    becomes a double (rounded beyond 2^53) or a BigInt (exact). *)
Definition decode_raw `{Backend} (v : sqlval) : jsval :=
  match v with
  | SInt z => match backend_raw_int with
              | IntAsNumber => JNumber (JFin (double_of_int z))
              | IntAsBigInt => JBigInt z
              end
  | SText s => JString s
  | SNull => JNull
  end.

Definition decode_row `{Backend} (row : list (string * sqlval)) : jsval :=
  JObject (map (fun '(a, v) => (a, decode_raw v)) row).

(** The answer of the engine to a raw statement, as [$queryRaw] delivers
    it: the rows as an array of objects, or a rejection with Prisma's
    code [P2010] when the engine reports an error. *)
Definition raw_answer `{Backend} (r : sql_result (list (list (string * sqlval)))) (w : world) :
    outcome js_error jsval * world :=
  match r with
  | Resolved rows => (Resolved (JArray (map decode_row rows)), w)
  | Rejected (SqlError msg) =>
      (Rejected (PrismaClientKnownRequestError "P2010"
                   ("Raw query failed. Code: `1`. Message: `" ++ msg ++ "`")), w)
  | Rejected err => (Rejected (engine_error err), w)
  end.

Lemma raw_answer_world `{Backend} r w : (raw_answer r w).2 = w.
Proof. by destruct r as [|[]]. Qed.

(** [prisma.$queryRaw`...`] on the text of a template literal: the
    engine parses the text, then prepares and runs the statement. *)
Definition query_raw `{Backend} (sql : string) : M jsval :=
  round_trip (fun w =>
    raw_answer (obind (parse_sql sql) (exec_select (simple_table (w_table w)))) w).

(** The same call on a text the engine parses as [q]. *)
Lemma query_raw_parsed `{Backend} sql q w :
  parse_sql sql = Resolved q ->
  query_raw sql w =
    round_trip (fun w => raw_answer (exec_select (simple_table (w_table w)) q) w) w.
Proof. intros Hq. unfold query_raw. by rewrite Hq. Qed.

(** ** The abstract specification of the aggregate *)

(** What [_sum.age] promises: absent exactly when no row has an age,
    otherwise the sum of the ages that are present. *)
Definition sum_age_spec (rows : list simple_row) : option Z :=
  match omap age rows with
  | [] => None
  | l => Some (sum_Z l)
  end.

(** The JavaScript value of an optional number. *)
Definition js_of_option (o : option Z) : jsval :=
  match o with
  | Some z => JNumber (JFin z)
  | None => JNull
  end.

(** The object [aggregate] resolves with: [{_sum: {age: s}}]. *)
Definition agg_result (s : option Z) : jsval :=
  JObject [("_sum", JObject [("age", js_of_option s)])].

(** The table invariant: every age fits Prisma's 32-bit [Int]. *)
Definition table_wf (rows : list simple_row) : Prop :=
  Forall (fun r => forall z, age r = Some z -> int32 z) rows.

Definition age_sql (r : simple_row) : sqlval :=
  match age r with Some z => SInt z | None => SNull end.

Lemma int_inputs_age_sql rows : int_inputs (map age_sql rows) = omap age rows.
Proof.
  induction rows as [|r rows IH]; [done|].
  unfold age_sql. destruct (age r) eqn:E; cbn; rewrite E; cbn; by rewrite <- IH.
Qed.

Lemma table_wf_column rows : table_wf rows -> int32_column (map age_sql rows).
Proof.
  induction 1 as [|r rows Hr _ IH]; simpl; constructor; [|done].
  unfold age_sql. destruct (age r) as [z|]; [right; eauto | by left].
Qed.

Lemma sum_spec_age rows :
  sum_spec (map age_sql rows) =
    match sum_age_spec rows with Some s => SInt s | None => SNull end.
Proof. unfold sum_spec, sum_age_spec. rewrite int_inputs_age_sql. by destruct (omap age rows). Qed.

(** Prisma's statement, run on the engine. *)
Lemma exec_sum_age_stmt `{Backend} rows :
  exec_select (simple_table rows) sum_age_stmt =
    obind (sum_agg (map age_sql rows)) (fun v => Resolved [[("_sum_age", v)]]).
Proof.
  unfold exec_select, simple_table, sum_age_stmt. simpl.
  rewrite map_map. by destruct (sum_agg _).
Qed.

#[export] Hint Resolve table_wf_column : prisma.

(** The aggregate with no fault on a valid table. *)
Lemma aggregate_sum_age_no_fault `{Backend} (w : world) :
  w_faults w = [] -> table_wf (w_table w) ->
  (Z.of_nat (length (w_table w)) < 2 ^ 32)%Z ->
  aggregate_sum_age w =
    (Resolved (agg_result (double_of_int <$> sum_age_spec (w_table w))), w).
Proof.
  intros Hf Hwf Hlen. unfold aggregate_sum_age, round_trip. rewrite Hf.
  rewrite exec_sum_age_stmt, sum_agg_int32_spec.
  - simpl. rewrite sum_spec_age. by destruct (sum_age_spec (w_table w)).
  - by apply table_wf_column.
  - by rewrite length_map.
Qed.

(** C2: refinement of the aggregate.  With no fault and a table that
    satisfies the invariant (fewer than 2^32 rows), [aggregate] resolves
    with [{_sum: {age: v}}] where [v] is [null] when no row has an age
    and otherwise the sum of the present ages as a double (rounded to
    the nearest double beyond 2^53), and changes nothing. *)
Theorem aggregate_refines `{Backend} (w : world) :
  w_faults w = [] -> table_wf (w_table w) ->
  (Z.of_nat (length (w_table w)) < 2 ^ 32)%Z ->
  aggregate_sum_age w =
    (Resolved (agg_result (double_of_int <$> sum_age_spec (w_table w))), w).
Proof. exact (aggregate_sum_age_no_fault w). Qed.

(** Client identifiers are allocated in increasing order: every open
    client has an identifier below the next one. *)
Definition clients_wf (w : world) : Prop :=
  forall c, elem_of c (w_open w) -> (c < w_next_client w)%nat.

(** Unfold the promise plumbing and the client's calls, and compute. *)
Ltac prisma_run :=
  repeat progress (
    unfold pbind, pret, preject, pmodify, pcatch, pexec, round_trip, new_client,
      disconnect, deleteMany, create, console_log, console_error,
      set_table, set_open, set_faults, int32_dec; cbn).

(** Case analysis on the first three injected outcomes. *)
Ltac faults3 f :=
  destruct f as [|[?|] [|[?|] [|[?|] ?]]].

(** [.catch((e) => console.error(e))] on an [async] function returning
    nothing: the promise always resolves. *)
Lemma caught_resolves (c : M unit) w : fst (pcatch c console_error w) = Resolved tt.
Proof. unfold pcatch. by destruct (c w) as [[[]|e] w']. Qed.

(** What follows a caught computation always runs, from the world it
    leaves. *)
Lemma pbind_caught {B} (c : M unit) (k : unit -> M B) w :
  pbind (pcatch c console_error) k w = k tt (pexec (pcatch c console_error) w).
Proof.
  pose proof (caught_resolves c w) as H. unfold pbind, pexec.
  destruct (pcatch c console_error w) as [[[]|e] w']; [done|discriminate].
Qed.

(** ** What leaves the standard output untouched *)

Definition keeps_stdout {A} (c : M A) : Prop :=
  forall w, w_stdout (pexec c w) = w_stdout w.

(** A computation that rejects from every world. *)
Definition always_rejects {A} (c : M A) : Prop :=
  forall w, exists e, fst (c w) = Rejected e.

Section KeepsStdout.
Lemma keeps_stdout_ret {A} (a : A) : keeps_stdout (pret a).
Proof. by intros w. Qed.

Lemma keeps_stdout_reject {A} (e : js_error) : keeps_stdout (@preject _ _ A e).
Proof. by intros w. Qed.

Lemma keeps_stdout_lift {A} (o : outcome js_error A) : keeps_stdout (plift o).
Proof. by intros w. Qed.

Lemma keeps_stdout_bind {A B} (c : M A) (k : A -> M B) :
  keeps_stdout c -> (forall a, keeps_stdout (k a)) -> keeps_stdout (pbind c k).
Proof.
  intros Hc Hk w. specialize (Hc w). unfold pexec, pbind in *.
  destruct (c w) as [[a|e] w']; simpl in *; [exact (eq_trans (Hk a w') Hc) | exact Hc].
Qed.

(** A computation that always rejects hides what follows it. *)
Lemma keeps_stdout_bind_rejects {A B} (c : M A) (k : A -> M B) :
  keeps_stdout c -> always_rejects c -> keeps_stdout (pbind c k).
Proof.
  intros Hc Hr w. specialize (Hc w). destruct (Hr w) as [e He]. unfold pexec, pbind in *.
  destruct (c w) as [[a|e'] w']; simpl in *; [discriminate|done].
Qed.

Lemma keeps_stdout_catch {A} (c : M A) (h : js_error -> M A) :
  keeps_stdout c -> (forall e, keeps_stdout (h e)) -> keeps_stdout (pcatch c h).
Proof.
  intros Hc Hh w. specialize (Hc w). unfold pexec, pcatch in *.
  destruct (c w) as [[a|e] w']; simpl in *; [exact Hc | exact (eq_trans (Hh e w') Hc)].
Qed.

Lemma keeps_stdout_round_trip {A} (op : M A) : keeps_stdout op -> keeps_stdout (round_trip op).
Proof.
  intros Hop w. unfold round_trip, pexec at 1. cbn beta.
  destruct (w_faults w) as [|[e|] rest]; [exact (Hop w) | reflexivity | exact (Hop _)].
Qed.

Lemma keeps_stdout_new_client : keeps_stdout new_client.
Proof. by intros w. Qed.

Lemma keeps_stdout_disconnect c : keeps_stdout (disconnect c).
Proof. by intros w. Qed.

Lemma keeps_stdout_console_error e : keeps_stdout (console_error e).
Proof. by intros w. Qed.

Lemma keeps_stdout_deleteMany : keeps_stdout deleteMany.
Proof. apply keeps_stdout_round_trip. by intros w. Qed.

Lemma keeps_stdout_create r : keeps_stdout (create r).
Proof.
  unfold create. destruct (age r) as [z|]; [destruct (int32_dec z)|];
    try apply keeps_stdout_round_trip; by intros w.
Qed.

Lemma keeps_stdout_query_raw `{Backend} sql : keeps_stdout (query_raw sql).
Proof.
  apply keeps_stdout_round_trip. intros w. unfold pexec. by rewrite raw_answer_world.
Qed.

Lemma keeps_stdout_aggregate `{Backend} : keeps_stdout aggregate_sum_age.
Proof.
  apply keeps_stdout_round_trip. intros w. unfold pexec. by destruct (exec_select _ _).
Qed.
End KeepsStdout.

#[export] Hint Resolve keeps_stdout_ret keeps_stdout_reject keeps_stdout_lift
  keeps_stdout_bind keeps_stdout_catch keeps_stdout_round_trip keeps_stdout_new_client
  keeps_stdout_disconnect keeps_stdout_console_error keeps_stdout_deleteMany
  keeps_stdout_create keeps_stdout_query_raw keeps_stdout_aggregate : prisma.

(** ** Client bookkeeping *)

(** The calls that neither open nor close a client. *)
Definition keeps_clients {A} (c : M A) : Prop :=
  forall w, w_open (pexec c w) = w_open w /\ w_next_client (pexec c w) = w_next_client w.

Section KeepsClients.
Lemma keeps_clients_round_trip {A} (op : M A) : keeps_clients op -> keeps_clients (round_trip op).
Proof.
  intros Hop w. unfold round_trip, pexec at 1 2. cbn beta.
  destruct (w_faults w) as [|[e|] rest]; [exact (Hop w) | done | exact (Hop _)].
Qed.

Lemma keeps_clients_deleteMany : keeps_clients deleteMany.
Proof. apply keeps_clients_round_trip. by intros w. Qed.

Lemma keeps_clients_create r : keeps_clients (create r).
Proof.
  unfold create. destruct (age r) as [z|]; [destruct (int32_dec z)|];
    try apply keeps_clients_round_trip; by intros w.
Qed.

Lemma keeps_clients_aggregate `{Backend} : keeps_clients aggregate_sum_age.
Proof.
  apply keeps_clients_round_trip. intros w. unfold pexec. by destruct (exec_select _ _).
Qed.

Lemma keeps_clients_query_raw `{Backend} sql : keeps_clients (query_raw sql).
Proof.
  apply keeps_clients_round_trip. intros w. unfold pexec. by rewrite raw_answer_world.
Qed.

Lemma keeps_clients_console_log msg : keeps_clients (console_log msg).
Proof. by intros w. Qed.

Lemma keeps_clients_console_error e : keeps_clients (console_error e).
Proof. by intros w. Qed.

Lemma keeps_clients_ret {A} (a : A) : keeps_clients (pret a).
Proof. by intros w. Qed.

Lemma keeps_clients_lift {A} (o : outcome js_error A) : keeps_clients (plift o).
Proof. by intros w. Qed.

Lemma keeps_clients_bind {A B} (c : M A) (k : A -> M B) :
  keeps_clients c -> (forall a, keeps_clients (k a)) -> keeps_clients (pbind c k).
Proof.
  intros Hc Hk w. specialize (Hc w). unfold pexec, pbind in *.
  destruct (c w) as [[a|e] w']; simpl in *; [|exact Hc].
  destruct (Hk a w') as [H1 H2]. unfold pexec in H1, H2. by rewrite H1, H2.
Qed.

(** A computation that always rejects skips what follows it, the
    [$disconnect()] of the scripts included. *)
Lemma keeps_clients_bind_rejects {A B} (c : M A) (k : A -> M B) :
  keeps_clients c -> always_rejects c -> keeps_clients (pbind c k).
Proof.
  intros Hc Hr w. specialize (Hc w). destruct (Hr w) as [e He]. unfold pexec, pbind in *.
  destruct (c w) as [[a|e'] w']; simpl in *; [discriminate|done].
Qed.

Lemma keeps_clients_catch {A} (c : M A) (h : js_error -> M A) :
  keeps_clients c -> (forall e, keeps_clients (h e)) -> keeps_clients (pcatch c h).
Proof.
  intros Hc Hh w. specialize (Hc w). unfold pexec, pcatch in *.
  destruct (c w) as [[a|e] w']; simpl in *; [exact Hc|].
  destruct (Hh e w') as [H1 H2]. unfold pexec in H1, H2. by rewrite H1, H2.
Qed.
End KeepsClients.

#[export] Hint Resolve keeps_clients_deleteMany keeps_clients_create keeps_clients_aggregate
  keeps_clients_query_raw keeps_clients_console_log keeps_clients_console_error
  keeps_clients_ret keeps_clients_lift keeps_clients_bind keeps_clients_catch : prisma.

(** A computation that opens one client, the next identifier, and
    leaves it open: [new PrismaClient()] followed by calls that never
    reach [$disconnect()]. *)
Definition leaves_client_open {A} (c : M A) : Prop :=
  forall w, w_open (pexec c w) = union {[w_next_client w]} (w_open w) /\
            w_next_client (pexec c w) = S (w_next_client w).

Lemma leaves_client_open_new {A} (k : nat -> M A) :
  (forall p, keeps_clients (k p)) -> leaves_client_open (pbind new_client k).
Proof. intros Hk w. exact (Hk (w_next_client w) _). Qed.

Lemma leaves_client_open_catch {A} (c : M A) (h : js_error -> M A) :
  leaves_client_open c -> (forall e, keeps_clients (h e)) -> leaves_client_open (pcatch c h).
Proof.
  intros Hc Hh w. specialize (Hc w). unfold pexec, pcatch in *.
  destruct (c w) as [[a|e] w']; simpl in *; [exact Hc|].
  destruct (Hh e w') as [H1 H2]. unfold pexec in H1, H2. by rewrite H1, H2.
Qed.

(** ** Witnesses *)

Lemma aggregate_refines_witness :
  let w0 := World [SimpleRow "a" (Some 1%Z); SimpleRow "b" None] empty 0 [] [] [] in
  w_faults w0 = [] /\ table_wf (w_table w0) /\ (Z.of_nat (length (w_table w0)) < 2 ^ 32)%Z /\
  aggregate_sum_age w0 = (Resolved (agg_result (double_of_int <$> Some 1%Z)), w0).
Proof.
  intros w0.
  assert (Hwf : table_wf (w_table w0)).
  { apply List.Forall_cons; [simpl; intros z [= <-]; unfold int32; lia|].
    apply List.Forall_cons; [simpl; discriminate | apply List.Forall_nil]. }
  assert (Hl : (Z.of_nat (length (w_table w0)) < 2 ^ 32)%Z) by (simpl; lia).
  split; [reflexivity|]. split; [exact Hwf|]. split; [exact Hl|].
  exact (aggregate_refines w0 eq_refl Hwf Hl).
Defined.
