(* ===== verification/Seed.v ===== *)
(** * [src/seed.ts]: the seeder

    [seed()] opens a client, empties table [simple], inserts the two rows
    of [data] one after the other ([for (const simp of data)] with an
    [await] per [create]), and calls [$disconnect()] without awaiting it.
    A rejection of any awaited call ends [seed] at that point: the rows
    inserted so far stay, and the client is never disconnected.

    Theorems: the run with no fault ([seed_ok]), every run with faults
    ([seed_partial], [seed_rejects_with_fault]), and the loop on any list
    of rows ([seed_loop_spec]). *)

From S2P Require Import Prelude JsValue Sql Prisma.
From stdpp Require Import gmap.

Local Open Scope string_scope.
Local Open Scope promise_scope.
Local Set Warnings "-clear-no-such-hyp".

(** [const data = [{name: "a", age: 1}, {name: "b", age: null}]]. *)
Definition data : list simple_row :=
  [SimpleRow "a" (Some 1%Z); SimpleRow "b" None].

(** [for (const simp of rows) { const simp1 = await prisma.simple.create({data: simp}); }] *)
Fixpoint seed_loop (rows : list simple_row) : M unit :=
  match rows with
  | [] => pret tt
  | simp :: rest =>
      let* simp1 := create simp in
      seed_loop rest
  end.

(** [export async function seed()]. *)
Definition seed : M unit :=
  let* prisma := new_client in
  let* _ := deleteMany in
  let* _ := seed_loop data in
  disconnect prisma.

(** ** Theorems *)

Lemma table_wf_data : table_wf data.
Proof.
  unfold table_wf, data.
  apply List.Forall_cons; [simpl; intros z [= <-]; unfold int32; lia|].
  apply List.Forall_cons; [simpl; discriminate|]. apply List.Forall_nil.
Qed.

Lemma fresh_not_open w : clients_wf w -> ~ elem_of (w_next_client w) (w_open w).
Proof. intros Hc Hin. specialize (Hc _ Hin). lia. Qed.

(** The seeder with no fault. *)
Lemma seed_no_fault (w : world) :
  w_faults w = [] -> clients_wf w ->
  seed w = (Resolved tt,
            World data (w_open w) (S (w_next_client w)) (w_stdout w) (w_stderr w) []).
Proof.
  intros Hf Hc. pose proof (fresh_not_open w Hc) as Hn.
  destruct w as [t o n so se f]; simpl in *; subst f.
  unfold seed. prisma_run. do 2 f_equal. set_solver.
Qed.

(** C5: with no fault, [seed] resolves, the table holds exactly [data]
    (in this order) whatever it held before, the client it opened is
    closed again and the console is untouched. *)
Theorem seed_ok (w : world) :
  w_faults w = [] -> clients_wf w ->
  seed w = (Resolved tt,
            World data (w_open w) (S (w_next_client w)) (w_stdout w) (w_stderr w) []).
Proof. exact (seed_no_fault w). Qed.

Lemma seed_ok_witness :
  let w0 := World [SimpleRow "z" (Some 5%Z)] empty 0 [] [] [] in
  w_faults w0 = [] /\ clients_wf w0 /\
  seed w0 = (Resolved tt, World data empty 1 [] [] []).
Proof.
  intros w0. assert (Hc : clients_wf w0) by (intros c Hc; set_solver).
  split; [reflexivity|]. split; [exact Hc|].
  exact (seed_ok w0 eq_refl Hc).
Defined.

(** C6: whatever the database does, [seed] either resolves with the
    table holding [data], or rejects leaving the table as it was (the
    [deleteMany] failed) or holding a strict prefix of [data] (a
    [create] failed): the partially seeded table the query phase then
    reads.  On rejection the client it opened is still open, since the
    [$disconnect()] call is skipped. *)
Theorem seed_partial (w : world) :
  match seed w with
  | (Resolved _, w') => w_table w' = data /\ ~ elem_of (w_next_client w) (w_open w')
  | (Rejected _, w') =>
      (w_table w' = w_table w \/ exists k, (k < length data)%nat /\ w_table w' = take k data) /\
      elem_of (w_next_client w) (w_open w')
  end.
Proof.
  destruct w as [t o n so se f]. unfold seed. prisma_run. faults3 f; cbn;
    first [ split; [done | set_solver]
          | split; [left; done | set_solver]
          | split; [right; exists 0%nat; simpl; split; [lia | done] | set_solver]
          | split; [right; exists 1%nat; simpl; split; [lia | done] | set_solver] ].
Qed.

Lemma keeps_stdout_seed_loop rows : keeps_stdout (seed_loop rows).
Proof. induction rows as [|r rows IH]; simpl; auto with prisma. Qed.

(** The seeder writes nothing on the standard output. *)
Lemma keeps_stdout_seed : keeps_stdout seed.
Proof. unfold seed. auto using keeps_stdout_seed_loop with prisma. Qed.

#[export] Hint Resolve keeps_stdout_seed : prisma.

(** Whatever the database does, the seeder creates exactly one client. *)
Lemma seed_next_client w :
  w_next_client (pexec (pcatch seed console_error) w) = S (w_next_client w).
Proof. destruct w as [t o n so se f]. unfold seed. prisma_run. by faults3 f. Qed.

(** ** The loop on any rows *)

(** A row [create] accepts: its age, if any, fits in 32 bits. *)
Definition valid_row (r : simple_row) : bool :=
  match age r with Some z => int32_dec z | None => true end.

Lemma create_no_fault r w :
  w_faults w = [] ->
  create r w = if valid_row r then (Resolved r, set_table (w_table w ++ [r]) w)
               else (Rejected (PrismaClientValidationError
                                 "Argument age: Unable to fit value into a 32-bit signed integer"), w).
Proof.
  intros Hf. unfold create, valid_row, round_trip.
  destruct (age r) as [z|]; [destruct (int32_dec z)|]; by rewrite ?Hf.
Qed.

(** C13: with no fault, the [for...of] loop of [seed] inserts the rows in
    order up to the first one whose age does not fit in 32 bits; there
    it rejects with Prisma's validation error, the rows before it
    inserted and none after.  When every row is valid it inserts them
    all. *)
Theorem seed_loop_spec (rows : list simple_row) (w : world) :
  w_faults w = [] ->
  seed_loop rows w =
    match list_find (fun r => valid_row r = false) rows with
    | None => (Resolved tt, set_table (w_table w ++ rows) w)
    | Some (i, _) =>
        (Rejected (PrismaClientValidationError
                     "Argument age: Unable to fit value into a 32-bit signed integer"),
         set_table (w_table w ++ take i rows) w)
    end.
Proof.
  revert w. induction rows as [|r rows IH]; intros w Hf.
  - destruct w; cbn. by rewrite app_nil_r.
  - cbn [seed_loop list_find]. unfold pbind at 1. rewrite create_no_fault by done.
    destruct (valid_row r) eqn:Hr; rewrite decide_bool_decide; simpl bool_decide.
    + rewrite IH by done. destruct w; cbn.
      destruct (list_find _ rows) as [[i r']|]; cbn; by rewrite <- app_assoc.
    + destruct w; cbn. by rewrite app_nil_r.
Qed.

Lemma seed_loop_spec_witness :
  let rows := [SimpleRow "x" (Some 1%Z); SimpleRow "y" (Some (2 ^ 40)%Z); SimpleRow "z" None] in
  let w0 := World [] empty 0 [] [] [] in
  w_faults w0 = [] /\
  seed_loop rows w0 =
    (Rejected (PrismaClientValidationError
                 "Argument age: Unable to fit value into a 32-bit signed integer"),
     World [SimpleRow "x" (Some 1%Z)] empty 0 [] [] []).
Proof.
  intros rows w0. split; [reflexivity|].
  rewrite (seed_loop_spec rows w0 eq_refl). reflexivity.
Defined.

(** C14: the seeder propagates the database's error unchanged: when
    [seed()] rejects, its error is one the database raised on one of its
    three round trips ([deleteMany] and the two [create]s); the rows of
    [data] never fail Prisma's own validation. *)
Theorem seed_rejects_with_fault (w w' : world) (e : js_error) :
  seed w = (Rejected e, w') -> In (Some e) (take 3 (w_faults w)).
Proof.
  destruct w as [t o n so se f]. unfold seed. prisma_run.
  faults3 f; cbn; intros [= <- _]; simpl; tauto.
Qed.

Lemma seed_rejects_with_fault_witness :
  let w0 := World [] empty 0 [] [] [None; Some (TypeError "down")] in
  seed w0 = (Rejected (TypeError "down"), World [] {[0%nat]} 1 [] [] []) /\
  In (Some (TypeError "down")) (take 3 (w_faults w0)).
Proof.
  intros w0. assert (H : seed w0 = (Rejected (TypeError "down"), World [] {[0%nat]} 1 [] [] []))
    by reflexivity.
  split; [exact H | exact (seed_rejects_with_fault _ _ _ H)].
Defined.
