(* ===== verification/Orm.v ===== *)
(** * [src/orm.ts]: the aggregate-query runner

    [query()] opens a client, awaits [aggregate({_sum: {age: true}})],
    computes [goodValue = Number(result._sum.age) + 99], builds the
    report with a template literal, logs it, and fires [$disconnect()].
    [main()] runs [seed()], logs its rejection if any, and then runs
    [query()], logging its rejection if any.

    [main] does not await the inner [query()] promise and the script does
    not await [main()]; the model [orm_main] runs the effects in the
    order the event loop performs them, which is the order of the source,
    since nothing else is scheduled.

    Numbers are doubles: the engine's sum reaches the script rounded to
    the nearest double ([Prisma.aggregate_refines]), and [+ 99] rounds
    again ([JsValue.num_add]).  The report's theorems bound the table to
    2^21 rows, below which every sum and [goodValue] is an integer
    smaller than 2^53, so no rounding happens and the printed digits
    ([int_to_string]) are those of JavaScript. *)

From S2P Require Import Prelude JsValue Sql Prisma Seed.
From stdpp Require Import gmap.

Local Open Scope string_scope.
Local Open Scope promise_scope.
Local Set Warnings "-clear-no-such-hyp".

(** [result._sum.age]. *)
Definition sum_age_of (result : jsval) : outcome js_error jsval :=
  let? s := js_get result "_sum" in js_get s "age".

(** [Number(result._sum.age) + 99]. *)
Definition good_value (result : jsval) : outcome js_error jsval :=
  let? a := sum_age_of result in
  let? n := js_Number a in
  js_add (JNumber n) (JNumber (JFin 99)).

(** The report's template literal, from the values it interpolates. *)
Definition orm_report (result_json age goodValue : jsval) : string :=
  nl ++ "  results of ORM queries--------" ++ nl ++
  "  result: " ++ js_to_string result_json ++ nl ++
  "  result._sum.age: " ++ js_to_string age ++ " (type: " ++ js_typeof age ++ ")" ++ nl ++
  "  goodValue: " ++ js_to_string goodValue ++ " (type: " ++ js_typeof goodValue ++ ")" ++ nl ++
  "  ".

(** The template literal evaluated: [JSON.stringify(result)] and the two
    reads of [result._sum.age] happen as it is built. *)
Definition orm_msg (result goodValue : jsval) : outcome js_error string :=
  let? j := json_stringify result in
  let? a := sum_age_of result in
  Resolved (orm_report j a goodValue).

(** [async function query()]. *)
Definition orm_query `{Backend} : M unit :=
  let* prisma := new_client in
  let* result := aggregate_sum_age in
  let* goodValue := plift (good_value result) in
  let* msg := plift (orm_msg result goodValue) in
  let* _ := console_log msg in
  disconnect prisma.

(** [async function main()]:
    [seed().catch((e) => console.error(e)).then(() => { query().catch((e) => console.error(e)); })]. *)
Definition orm_main `{Backend} : M unit :=
  let* _ := pcatch seed console_error in
  pcatch orm_query console_error.

(** ** Theorems *)

(** The text [JSON.stringify] gives for the aggregate's result. *)
Definition sum_json (s : option Z) : string :=
  "{" ++ json_quote "_sum" ++ ":" ++
  ("{" ++ json_quote "age" ++ ":" ++
   match s with Some z => int_to_string z | None => "null" end ++ "}") ++ "}".

Lemma good_value_agg (s : option Z) :
  good_value (agg_result s) = Resolved (JNumber (JFin (double_of_int (default 0 s + 99)%Z))).
Proof. destruct s; reflexivity. Qed.

Lemma orm_msg_agg (s : option Z) (g : jsval) :
  orm_msg (agg_result s) g = Resolved (orm_report (JString (sum_json s)) (js_of_option s) g).
Proof. destruct s; reflexivity. Qed.

(** The world after [query()] succeeded: one more client allocated and
    closed, one more line on the console. *)
Definition after_query (w : world) (msg : string) : world :=
  World (w_table w) (w_open w) (S (w_next_client w)) (w_stdout w ++ [msg]) (w_stderr w) (w_faults w).


Lemma sum_age_spec_default (rows : list simple_row) :
  default 0%Z (sum_age_spec rows) = sum_Z (omap age rows).
Proof. unfold sum_age_spec. by destruct (omap age rows). Qed.

Lemma table_wf_ages rows :
  table_wf rows -> Forall (fun z => Z.abs z <= 2 ^ 31)%Z (omap age rows).
Proof.
  induction 1 as [|r rows Hr _ IH]; [constructor|]. cbn.
  destruct (age r) as [z|] eqn:E; [|done].
  constructor; [|done]. specialize (Hr z eq_refl). unfold int32 in Hr. lia.
Qed.

(** Below 2^21 rows of 32-bit ages, the sum and the sum plus 99 are
    integers of magnitude below 2^53: converting them to doubles is
    exact. *)
Lemma sum_age_small (rows : list simple_row) :
  table_wf rows -> (Z.of_nat (length rows) < 2 ^ 21)%Z ->
  (Z.abs (default 0 (sum_age_spec rows)) + 99 <= MAX_SAFE_INTEGER)%Z.
Proof.
  intros Hwf Hlen. rewrite sum_age_spec_default.
  pose proof (sum_Z_bound _ _ (table_wf_ages _ Hwf)) as Hs.
  pose proof (length_omap_le age rows) as Hl.
  unfold MAX_SAFE_INTEGER. nia.
Qed.

Lemma sum_age_double (rows : list simple_row) :
  table_wf rows -> (Z.of_nat (length rows) < 2 ^ 21)%Z ->
  double_of_int <$> sum_age_spec rows = sum_age_spec rows /\
  double_of_int (default 0 (sum_age_spec rows) + 99)%Z = (default 0 (sum_age_spec rows) + 99)%Z.
Proof.
  intros Hwf Hlen. pose proof (sum_age_small rows Hwf Hlen) as Hb. unfold MAX_SAFE_INTEGER in Hb.
  split; [destruct (sum_age_spec rows) as [z|]; simpl in *; [|done]|];
    rewrite double_of_int_small; [done|lia|done|lia].
Qed.

(** [query()] of orm.ts with no fault on a valid table. *)
Lemma orm_query_no_fault `{Backend} (w : world) :
  w_faults w = [] -> clients_wf w -> table_wf (w_table w) ->
  (Z.of_nat (length (w_table w)) < 2 ^ 21)%Z ->
  let s := sum_age_spec (w_table w) in
  orm_query w =
    (Resolved tt,
     after_query w (orm_report (JString (sum_json s)) (js_of_option s)
                               (JNumber (JFin (default 0 s + 99)%Z)))).
Proof.
  intros Hf Hc Hwf Hlen s. pose proof (fresh_not_open w Hc) as Hn.
  destruct (sum_age_double _ Hwf Hlen) as [Hd1 Hd2].
  assert (Hl32 : (Z.of_nat (length (w_table w)) < 2 ^ 32)%Z) by lia.
  destruct w as [t o n so se f]; simpl in *; subst f.
  unfold orm_query.
  erewrite pbind_resolved by reflexivity.
  erewrite pbind_resolved
    by (rewrite aggregate_sum_age_no_fault by (simpl; done); cbn [w_table]; rewrite Hd1; reflexivity).
  erewrite pbind_resolved by (unfold plift; rewrite good_value_agg, Hd2; reflexivity).
  erewrite pbind_resolved by (unfold plift; rewrite orm_msg_agg; reflexivity).
  prisma_run. unfold after_query. simpl. do 3 f_equal. set_solver.
Qed.

(** C3: with no fault and a table satisfying the invariant (fewer than
    2^21 rows), [query()] resolves and prints one report, in which
    [result] is the JSON of [{_sum: {age: s}}], [result._sum.age] is [s]
    itself ([null], of type [object], when no row has an age) and
    [goodValue] is the number [s + 99], with an absent [s] read as 0 by
    [Number]; its client is opened and closed again. *)
Theorem orm_query_report `{Backend} (w : world) :
  w_faults w = [] -> clients_wf w -> table_wf (w_table w) ->
  (Z.of_nat (length (w_table w)) < 2 ^ 21)%Z ->
  let s := sum_age_spec (w_table w) in
  orm_query w =
    (Resolved tt,
     after_query w (orm_report (JString (sum_json s)) (js_of_option s)
                               (JNumber (JFin (default 0 s + 99)%Z)))).
Proof. exact (orm_query_no_fault w). Qed.

Lemma orm_query_report_witness :
  let w0 := World data empty 0 [] [] [] in
  w_faults w0 = [] /\ clients_wf w0 /\ table_wf (w_table w0) /\
  (Z.of_nat (length (w_table w0)) < 2 ^ 21)%Z /\
  orm_query w0 =
    (Resolved tt,
     after_query w0 (orm_report (JString (sum_json (Some 1%Z))) (JNumber (JFin 1))
                                (JNumber (JFin 100)))).
Proof.
  intros w0. assert (Hc : clients_wf w0) by (intros c Hc; set_solver).
  assert (Hl : (Z.of_nat (length (w_table w0)) < 2 ^ 21)%Z) by (simpl; lia).
  split; [reflexivity|]. split; [exact Hc|]. split; [exact table_wf_data|]. split; [exact Hl|].
  exact (orm_query_report w0 eq_refl Hc table_wf_data Hl).
Defined.

(** The next client of a well-formed world is fresh. *)
Lemma clients_wf_next (w : world) o :
  clients_wf w -> subseteq o (w_open w) ->
  clients_wf (World (w_table w) o (S (w_next_client w)) (w_stdout w) (w_stderr w) (w_faults w)).
Proof. intros Hc Ho c Hin. simpl. specialize (Hc c (Ho c Hin)). lia. Qed.

(** C7: [main()] never rejects, whatever the database does: every
    rejection of [seed()] and of [query()] is caught and logged, so the
    process never sees an unhandled rejection. *)
Theorem orm_main_resolves `{Backend} (w : world) : fst (orm_main w) = Resolved tt.
Proof. unfold orm_main. rewrite pbind_caught. apply caught_resolves. Qed.

(** C1: the spec's scenario end to end.  With no fault, [main()] seeds
    [{a, 1}, {b, null}] over whatever the table held, then prints the
    single report [result: {"_sum":{"age":1}}], [result._sum.age: 1
    (type: number)], [goodValue: 100 (type: number)], logs no error, and
    closes both clients. *)
Theorem orm_main_scenario `{Backend} (w : world) :
  w_faults w = [] -> clients_wf w ->
  orm_main w =
    (Resolved tt,
     World data (w_open w) (S (S (w_next_client w)))
           (w_stdout w ++ [orm_report (JString (sum_json (Some 1%Z))) (JNumber (JFin 1))
                                      (JNumber (JFin 100))])
           (w_stderr w) []).
Proof.
  intros Hf Hc. unfold orm_main.
  erewrite pbind_resolved by (apply pcatch_resolved, seed_no_fault; done).
  erewrite pcatch_resolved; [reflexivity|].
  apply (orm_query_no_fault (World data _ _ _ _ [])); simpl; try done.
  - apply (clients_wf_next w (w_open w) Hc). done.
  - exact table_wf_data.
Qed.

Lemma orm_main_scenario_witness :
  let w0 := World [SimpleRow "z" (Some 5%Z)] empty 0 [] [] [] in
  w_faults w0 = [] /\ clients_wf w0 /\
  orm_main w0 =
    (Resolved tt,
     World data empty 2
           [orm_report (JString (sum_json (Some 1%Z))) (JNumber (JFin 1)) (JNumber (JFin 100))]
           [] []).
Proof.
  intros w0. assert (Hc : clients_wf w0) by (intros c Hc; set_solver).
  split; [reflexivity|]. split; [exact Hc|].
  exact (orm_main_scenario w0 eq_refl Hc).
Defined.

(** C8: the "continue on seed failure" policy.  When the first round
    trip of [seed()] (its [deleteMany]) fails and the database then
    recovers, [main()] logs the seed error, still runs [query()], and the
    report it prints is computed on the table as it was before seeding
    (fewer than 2^21 rows); the seeder's client is left open. *)
Theorem orm_main_seed_fails `{Backend} (w : world) (e : js_error) :
  w_faults w = [Some e] -> clients_wf w -> table_wf (w_table w) ->
  (Z.of_nat (length (w_table w)) < 2 ^ 21)%Z ->
  let s := sum_age_spec (w_table w) in
  orm_main w =
    (Resolved tt,
     World (w_table w) (union {[w_next_client w]} (w_open w)) (S (S (w_next_client w)))
           (w_stdout w ++ [orm_report (JString (sum_json s)) (js_of_option s)
                                      (JNumber (JFin (default 0 s + 99)%Z))])
           (w_stderr w ++ [e]) []).
Proof.
  intros Hf Hc Hwf Hlen s. unfold orm_main.
  assert (Hseed : seed w = (Rejected e, World (w_table w) (union {[w_next_client w]} (w_open w))
                                              (S (w_next_client w)) (w_stdout w) (w_stderr w) [])).
  { destruct w as [t o n so se f]; simpl in *; subst f. unfold seed. by prisma_run. }
  erewrite pbind_resolved by (erewrite pcatch_rejected by exact Hseed; reflexivity).
  erewrite pcatch_resolved; [reflexivity|].
  apply (orm_query_no_fault (World (w_table w) _ _ _ _ [])); simpl; try done.
  intros c Hin. simpl in *. apply elem_of_union in Hin as [Hin|Hin];
    [apply elem_of_singleton in Hin; lia | specialize (Hc c Hin); lia].
Qed.

Lemma orm_main_seed_fails_witness :
  let w0 := World [SimpleRow "z" (Some 5%Z)] empty 0 [] [] [Some (TypeError "down")] in
  w_faults w0 = [Some (TypeError "down")] /\ clients_wf w0 /\ table_wf (w_table w0) /\
  (Z.of_nat (length (w_table w0)) < 2 ^ 21)%Z /\
  orm_main w0 =
    (Resolved tt,
     World [SimpleRow "z" (Some 5%Z)] {[0%nat]} 2
           [orm_report (JString (sum_json (Some 5%Z))) (JNumber (JFin 5)) (JNumber (JFin 104))]
           [TypeError "down"] []).
Proof.
  intros w0. assert (Hc : clients_wf w0) by (intros c Hc; set_solver).
  assert (Hwf : table_wf (w_table w0)).
  { apply List.Forall_cons; [simpl; intros z [= <-]; unfold int32; lia | apply List.Forall_nil]. }
  assert (Hlen : (Z.of_nat (length (w_table w0)) < 2 ^ 21)%Z) by (simpl; lia).
  split; [reflexivity|]. split; [exact Hc|]. split; [exact Hwf|]. split; [exact Hlen|].
  rewrite (orm_main_seed_fails w0 (TypeError "down") eq_refl Hc Hwf Hlen).
  reflexivity.
Defined.

(** C12: on a table satisfying the invariant with fewer than 2^21 rows,
    [Number(result._sum.age) + 99] is the exact integer [s + 99] (an
    absent sum read as 0) and stays within [Number.MAX_SAFE_INTEGER]:
    the double arithmetic of [goodValue] rounds nothing. *)
Theorem goodValue_exact (rows : list simple_row) :
  table_wf rows -> (Z.of_nat (length rows) < 2 ^ 21)%Z ->
  exists v, good_value (agg_result (sum_age_spec rows)) = Resolved (JNumber (JFin v)) /\
            v = (default 0 (sum_age_spec rows) + 99)%Z /\
            (Z.abs v <= MAX_SAFE_INTEGER)%Z.
Proof.
  intros Hwf Hlen. destruct (sum_age_double rows Hwf Hlen) as [_ Hd].
  pose proof (sum_age_small rows Hwf Hlen).
  eexists. rewrite good_value_agg, Hd. split_and!; [reflexivity | reflexivity | lia].
Qed.

Lemma goodValue_exact_witness :
  table_wf data /\ (Z.of_nat (length data) < 2 ^ 21)%Z /\
  exists v, good_value (agg_result (sum_age_spec data)) = Resolved (JNumber (JFin v)) /\
            v = (default 0 (sum_age_spec data) + 99)%Z /\
            (Z.abs v <= MAX_SAFE_INTEGER)%Z.
Proof.
  assert (Hlen : (Z.of_nat (length data) < 2 ^ 21)%Z) by (simpl; lia).
  split; [exact table_wf_data|]. split; [exact Hlen|].
  exact (goodValue_exact data table_wf_data Hlen).
Defined.

(** The aggregate resolves only with [{_sum: {age: v}}] for a value [v]
    the driver decoded. *)
Lemma aggregate_shape `{Backend} w r w' :
  aggregate_sum_age w = (Resolved r, w') ->
  exists v, r = JObject [("_sum", JObject [("age", decode_int_field v)])].
Proof.
  unfold aggregate_sum_age, round_trip.
  destruct (w_faults w) as [|[e|] rest]; [| by intros [=] |];
    destruct (exec_select _ _); intros [= <- _]; eauto.
Qed.

(** On every result of the aggregate, [goodValue] and the report text
    are computed without throwing. *)
Lemma orm_tail_resolves v :
  exists g msg, good_value (JObject [("_sum", JObject [("age", decode_int_field v)])]) = Resolved g /\
                orm_msg (JObject [("_sum", JObject [("age", decode_int_field v)])]) g = Resolved msg.
Proof.
  destruct v as [|z|s]; [| | destruct (string_to_number s) eqn:E];
    do 2 eexists; split; try reflexivity;
    unfold good_value, sum_age_of; cbn; rewrite ?E; reflexivity.
Qed.

(** C16: whatever the database does, [query()] of [src/orm.ts] closes
    its client exactly when it resolves.  When it resolves it has printed
    one report and its client is closed again; when it rejects (the
    aggregate's round trip failed, or the engine rejected the sum) it has
    printed nothing and its client stays open, since the
    [prisma.$disconnect()] of orm.ts:31 is skipped. *)
Theorem orm_query_closes_iff_resolves `{Backend} (w : world) :
  clients_wf w ->
  match orm_query w with
  | (Resolved _, w') =>
      w_open w' = w_open w /\ exists msg : string, w_stdout w' = (w_stdout w ++ [msg])%list
  | (Rejected _, w') =>
      w_open w' = union {[w_next_client w]} (w_open w) /\ w_stdout w' = w_stdout w
  end.
Proof.
  intros Hc. pose proof (fresh_not_open w Hc) as Hn. unfold orm_query.
  rewrite (pbind_resolved new_client _ w (w_next_client w) (snd (new_client w)) eq_refl).
  set (w1 := snd (new_client w)).
  pose proof (keeps_clients_aggregate w1) as [Ho _]. pose proof (keeps_stdout_aggregate w1) as Hs.
  unfold pexec in *. destruct (aggregate_sum_age w1) as [[r|e] w2] eqn:Ea.
  - destruct (aggregate_shape _ _ _ Ea) as [v ->].
    destruct (orm_tail_resolves v) as (g & msg & Hg & Hm).
    erewrite pbind_resolved by exact Ea. unfold pbind at 1, plift at 1. rewrite Hg.
    unfold pbind at 1, plift at 1. rewrite Hm. prisma_run. simpl in Ho, Hs.
    rewrite Ho, Hs. split; [set_solver | by eexists].
  - erewrite pbind_rejected by exact Ea. simpl in *. by split.
Qed.

Lemma orm_query_closes_iff_resolves_witness :
  let w0 := World [] empty 0 [] [] [Some (TypeError "down")] in
  clients_wf w0 /\
  orm_query w0 = (Rejected (TypeError "down"), World [] {[0%nat]} 1 [] [] []) /\
  match @orm_query sqlite_backend w0 with
  | (Resolved _, w') =>
      w_open w' = w_open w0 /\ exists msg : string, w_stdout w' = (w_stdout w0 ++ [msg])%list
  | (Rejected _, w') =>
      w_open w' = union {[w_next_client w0]} (w_open w0) /\ w_stdout w' = w_stdout w0
  end.
Proof.
  intros w0. assert (Hc : clients_wf w0) by (intros c Hc; set_solver).
  split; [exact Hc|]. split; [reflexivity|].
  exact (orm_query_closes_iff_resolves w0 Hc).
Defined.
