(* ===== verification/Raw.v ===== *)
(** * [src/raw.ts]: the raw-query runner

    [query()] opens a client and awaits three [$queryRaw] statements in
    order, each bound to a declared row type ([QueryIntResult] with
    [mySum: number], [QueryStrResult] with [mySum: string]) that nothing
    checks; then it computes [badValue = badInt[0].mySum + 99], builds
    the report with a template literal, logs it and fires
    [$disconnect()].  [main()] chains [seed()] and [query()] as in
    [src/orm.ts].

    The three template literals are kept as the exact text the engine
    receives ([raw_int_text], [raw_str_text], [bad_int_text]); the lemmas
    [parse_raw_int_text] and its siblings show that the engine's front
    end ([SqlText.parse_sql]) reads them as the statements [raw_int_stmt],
    [raw_str_stmt], [bad_int_stmt] that [Sql] executes.

    The declared row types are modelled as data ([row_decl]) together
    with the check TypeScript does not perform ([conforms]), so that the
    theorems can compare what the declaration claims with what the
    driver returns; [decl_ty] turns a declaration into a type of
    [TsTypes], whose membership is [conforms] ([conforms_has_type]), and
    [raw_declared_types_unchecked] shows a [number]-typed expression of
    the script evaluating to a string.  [raw_main_leaks_client] follows
    the client of [query()], which is never disconnected. *)

From S2P Require Import Prelude JsValue TsTypes Sql SqlText Prisma Seed.
From stdpp Require Import gmap.

Local Open Scope string_scope.
Local Open Scope promise_scope.
Local Set Warnings "-clear-no-such-hyp".

(** ** Declared row types *)

Inductive ts_type : Type :=
| TsNumber
| TsString.

(** An interface with its fields and their declared types. *)
Definition row_decl : Type := list (string * ts_type).

(** [interface QueryIntResult { mySum: number; }]. *)
Definition QueryIntResult : row_decl := [("mySum", TsNumber)].

(** [interface QueryStrResult { mySum: string; }]. *)
Definition QueryStrResult : row_decl := [("mySum", TsString)].

(** What [typeof] must say of a value of the declared type. *)
Definition ts_type_tag (t : ts_type) : string :=
  match t with TsNumber => "number" | TsString => "string" end.

(** The run-time check the declaration stands for: every row is an
    object whose declared fields have the declared [typeof]. *)
Definition row_conforms (d : row_decl) (row : jsval) : bool :=
  match row with
  | JObject fs =>
      forallb (fun '(f, t) => bool_decide (js_typeof (default JUndefined (field_lookup fs f))
                                            = ts_type_tag t)) d
  | _ => false
  end.

Definition conforms (d : row_decl) (rows : jsval) : bool :=
  match rows with
  | JArray rs => forallb (row_conforms d) rs
  | _ => false
  end.

(** ** The three statements, as written in the source *)

(** The texts of the three template literals, character for character:
    a newline, four spaces, the statement, a newline, four spaces. *)
Definition raw_int_text : string :=
  nl ++ "    SELECT coalesce(SUM(age)," ++ dquote ++ dquote ++ ") as mySum FROM simple;" ++ nl ++ "    ".

Definition raw_str_text : string :=
  nl ++ "    SELECT " ++ dquote ++ "4" ++ dquote ++ " as mySum;" ++ nl ++ "    ".

Definition bad_int_text : string :=
  nl ++ "    SELECT coalesce(SUM(fav)," ++ dquote ++ "bad" ++ dquote ++ ") as mySum FROM simple;" ++ nl ++ "    ".

(** The statements the engine reads in them ([parse_raw_texts]). *)

(** [SELECT coalesce(SUM(age),"") as mySum FROM simple;] *)
Definition raw_int_stmt : select :=
  Select [(ECall "coalesce" [ECall "SUM" [EIdent "age"]; EDQuoted ""], "mySum")] (Some "simple").

(** [SELECT "4" as mySum;] *)
Definition raw_str_stmt : select :=
  Select [(EDQuoted "4", "mySum")] None.

(** [SELECT coalesce(SUM(fav),"bad") as mySum FROM simple;] *)
Definition bad_int_stmt : select :=
  Select [(ECall "coalesce" [ECall "SUM" [EIdent "fav"]; EDQuoted "bad"], "mySum")] (Some "simple").

(** ** [query()] *)

(** [rows[0].mySum]. *)
Definition mySum_of (rows : jsval) : outcome js_error jsval :=
  let? r := js_index rows 0 in js_get r "mySum".

(** The report's template literal, from the values it interpolates. *)
Definition raw_report (ri rs bi bv : jsval) : string :=
  nl ++ "  results of RAW queries--------" ++ nl ++
  "  rawInt: " ++ js_to_string ri ++ " (type: " ++ js_typeof ri ++ ")" ++ nl ++
  "  rawStr: " ++ js_to_string rs ++ " (type: " ++ js_typeof rs ++ ")" ++ nl ++
  "  badInt: " ++ js_to_string bi ++ " (type: " ++ js_typeof bi ++ ")" ++ nl ++
  "  badValue:" ++ nl ++
  "    (typed number, but has type " ++ js_typeof bv ++ ")" ++ nl ++
  "    value: " ++ js_to_string bv ++ nl ++
  "  ------------------------------" ++ nl ++
  "  ".

(** The template literal evaluated: each [x[0].mySum] is read as the
    literal is built. *)
Definition raw_msg (rawInt rawStr badInt badValue : jsval) : outcome js_error string :=
  let? ri := mySum_of rawInt in
  let? rs := mySum_of rawStr in
  let? bi := mySum_of badInt in
  Resolved (raw_report ri rs bi badValue).

(** [async function query()]. *)
Definition raw_query `{Backend} : M unit :=
  let* prisma := new_client in
  let* rawInt := query_raw raw_int_text in
  let* rawStr := query_raw raw_str_text in
  let* badInt := query_raw bad_int_text in
  let* badValue := plift (let? m := mySum_of badInt in js_add m (JNumber (JFin 99))) in
  let* msg := plift (raw_msg rawInt rawStr badInt badValue) in
  let* _ := console_log msg in
  disconnect prisma.

(** [async function main()]. *)
Definition raw_main `{Backend} : M unit :=
  let* _ := pcatch seed console_error in
  pcatch raw_query console_error.

(** ** What [tsc] sees of [query()] *)

Definition ts_of (t : ts_type) : ty :=
  match t with TsNumber => TNumber | TsString => TString end.

(** An interface as the object type of its members. *)
Definition decl_ty (d : row_decl) : ty := TObject (map (fun '(f, t) => (f, ts_of t)) d).

(** The declared types of [rawInt], [rawStr] and [badInt] (raw.ts:15,
    19, 23): the type argument of each [$queryRaw<T>], which the client
    does not check against the rows. *)
Definition raw_tenv : tenv :=
  [("rawInt", TArray (decl_ty QueryIntResult)); ("rawStr", TArray (decl_ty QueryStrResult));
   ("badInt", TArray (decl_ty QueryIntResult))].

(** [x[0].mySum]. *)
Definition mySum_expr (x : string) : texpr := EMember (EIndex (EVar x) 0) "mySum".

(** [badInt[0].mySum + 99], the initialiser of raw.ts:27. *)
Definition raw_badValue_expr : texpr := EAdd (mySum_expr "badInt") (ENum 99).

(** ** Theorems *)

(** The engine reads the three template literals of [query()] as the
    three statements. *)
Lemma parse_raw_int_text : parse_sql raw_int_text = Resolved raw_int_stmt.
Proof. vm_compute. reflexivity. Qed.

Lemma parse_raw_str_text : parse_sql raw_str_text = Resolved raw_str_stmt.
Proof. vm_compute. reflexivity. Qed.

Lemma parse_bad_int_text : parse_sql bad_int_text = Resolved bad_int_stmt.
Proof. vm_compute. reflexivity. Qed.

(** The engine's answer to [bad_int_stmt]: [fav] is not a column of
    [simple], in every dialect, whatever the rows. *)
Lemma exec_bad_int `{Backend} rows :
  exec_select (simple_table rows) bad_int_stmt = Rejected (SqlError "no such column: fav").
Proof. reflexivity. Qed.

(** The error [$queryRaw] rejects with for it. *)
Definition fav_error : js_error :=
  PrismaClientKnownRequestError "P2010" "Raw query failed. Code: `1`. Message: `no such column: fav`".

Lemma bad_int_always_rejects `{Backend} : always_rejects (query_raw bad_int_text).
Proof.
  intros w. rewrite (query_raw_parsed _ _ _ parse_bad_int_text). unfold round_trip.
  destruct (w_faults w) as [|[e|] rest]; [| by eexists | ];
    rewrite exec_bad_int; by eexists.
Qed.

(** C4: the raw report is never printed.  Whatever the backend and
    whatever the database does, [main()] of [src/raw.ts] writes nothing
    on the standard output: the third statement sums the column [fav],
    which table [simple] does not have, so it is rejected when it is
    prepared, before the [console.log] is reached. *)
Theorem raw_main_never_reports `{Backend} (w : world) :
  w_stdout (pexec raw_main w) = w_stdout w.
Proof.
  unfold raw_main, raw_query.
  apply keeps_stdout_bind; [auto with prisma|]. intros _.
  apply keeps_stdout_catch; [|auto with prisma].
  apply keeps_stdout_bind; [auto with prisma|]. intros prisma.
  apply keeps_stdout_bind; [auto with prisma|]. intros rawInt.
  apply keeps_stdout_bind; [auto with prisma|]. intros rawStr.
  apply keeps_stdout_bind_rejects; [auto with prisma | apply bad_int_always_rejects].
Qed.

(** What [rawInt[0].mySum] holds: the sum decoded by the driver, or the
    fallback [""] of the [coalesce] when no row has an age. *)
Definition raw_int_value `{Backend} (s : option Z) : jsval :=
  match s with
  | Some z => decode_raw (SInt z)
  | None => JString ""
  end.

Lemma exec_raw_int `{Backend} rows :
  backend_dq <> DqIdent ->
  exec_select (simple_table rows) raw_int_stmt =
    obind (sum_agg (map age_sql rows)) (fun v => Resolved [[("mySum", first_non_null [v; SText ""])]]).
Proof.
  destruct H as [dq ri]. simpl. intros Hdq. unfold raw_int_stmt.
  rewrite (exec_select_single _ _ _ _ ["name"; "age"] (map row_to_sql rows)
             (RCoalesce [RSum (RCol 1); RLit (SText "")])); [| reflexivity |].
  - simpl. rewrite map_map. replace (map _ rows) with (map age_sql rows)
      by (apply map_ext; by intros []).
    by destruct (sum_agg _).
  - destruct dq; [reflexivity | reflexivity | done].
Qed.

(** The first raw statement with no fault on a valid table. *)
Lemma query_raw_int_no_fault `{Backend} (w : world) :
  w_faults w = [] -> table_wf (w_table w) ->
  (Z.of_nat (length (w_table w)) < 2 ^ 32)%Z -> backend_dq <> DqIdent ->
  let rows := JArray [JObject [("mySum", raw_int_value (sum_age_spec (w_table w)))]] in
  query_raw raw_int_text w = (Resolved rows, w) /\
  (conforms QueryIntResult rows = true <->
   backend_raw_int = IntAsNumber /\ sum_age_spec (w_table w) <> None).
Proof.
  intros Hf Hwf Hlen Hdq rows. split.
  - rewrite (query_raw_parsed _ _ _ parse_raw_int_text).
    unfold round_trip. rewrite Hf, exec_raw_int by done.
    rewrite sum_agg_int32_spec by (auto with prisma; by rewrite length_map).
    rewrite sum_spec_age. subst rows. by destruct (sum_age_spec (w_table w)).
  - subst rows. unfold raw_int_value.
    destruct (sum_age_spec (w_table w)); [|simpl; naive_solver].
    unfold decode_raw. destruct backend_raw_int; simpl; naive_solver.
Qed.

(** C9: what the first raw statement returns, against what
    [QueryIntResult] declares.  On a backend that reads [""] as a string
    (SQLite, MySQL), with no fault, [rawInt] is one row whose [mySum] is
    the decoded sum of the ages, or the string [""] when no row has an
    age; and the declared [mySum: number] holds exactly when the driver
    decodes integers as numbers and some row has an age. *)
Theorem raw_int_result `{Backend} (w : world) :
  w_faults w = [] -> table_wf (w_table w) ->
  (Z.of_nat (length (w_table w)) < 2 ^ 32)%Z -> backend_dq <> DqIdent ->
  let rows := JArray [JObject [("mySum", raw_int_value (sum_age_spec (w_table w)))]] in
  query_raw raw_int_text w = (Resolved rows, w) /\
  (conforms QueryIntResult rows = true <->
   backend_raw_int = IntAsNumber /\ sum_age_spec (w_table w) <> None).
Proof. exact (query_raw_int_no_fault w). Qed.

Lemma raw_int_result_witness :
  let w0 := World data empty 0 [] [] [] in
  w_faults w0 = [] /\ table_wf (w_table w0) /\
  (Z.of_nat (length (w_table w0)) < 2 ^ 32)%Z /\ @backend_dq sqlite_backend <> DqIdent /\
  query_raw raw_int_text w0 = (Resolved (JArray [JObject [("mySum", JNumber (JFin 1))]]), w0).
Proof.
  intros w0. assert (Hlen : (Z.of_nat (length (w_table w0)) < 2 ^ 32)%Z) by (simpl; lia).
  assert (Hdq : @backend_dq sqlite_backend <> DqIdent) by discriminate.
  split; [reflexivity|]. split; [exact table_wf_data|]. split; [exact Hlen|]. split; [exact Hdq|].
  exact (proj1 (raw_int_result w0 eq_refl table_wf_data Hlen Hdq)).
Defined.

(** The second raw statement with no fault. *)
Lemma query_raw_str_no_fault `{Backend} (w : world) :
  w_faults w = [] ->
  query_raw raw_str_text w =
    match backend_dq with
    | DqIdent =>
        (Rejected (PrismaClientKnownRequestError "P2010"
                     "Raw query failed. Code: `1`. Message: `no such column: 4`"), w)
    | _ => (Resolved (JArray [JObject [("mySum", JString "4")]]), w)
    end.
Proof.
  intros Hf. rewrite (query_raw_parsed _ _ _ parse_raw_str_text).
  unfold round_trip. rewrite Hf.
  destruct H as [[] ri]; reflexivity.
Qed.

(** C10: [SELECT "4" as mySum] returns the row [{mySum: "4"}], a string
    and never the number 4, on the backends that read ["4"] as a string;
    standard SQL rejects it as an unknown column. *)
Theorem raw_str_result `{Backend} (w : world) :
  w_faults w = [] ->
  query_raw raw_str_text w =
    match backend_dq with
    | DqIdent =>
        (Rejected (PrismaClientKnownRequestError "P2010"
                     "Raw query failed. Code: `1`. Message: `no such column: 4`"), w)
    | _ => (Resolved (JArray [JObject [("mySum", JString "4")]]), w)
    end.
Proof. exact (query_raw_str_no_fault w). Qed.

Lemma raw_str_result_witness :
  let w0 := World data empty 0 [] [] [] in
  w_faults w0 = [] /\
  query_raw raw_str_text w0 = (Resolved (JArray [JObject [("mySum", JString "4")]]), w0).
Proof.
  intros w0. split; [reflexivity|].
  exact (@raw_str_result sqlite_backend w0 eq_refl).
Defined.

(** [query()] of [src/raw.ts] after a successful seeding, with no fault:
    the first two statements succeed, the third rejects. *)
Lemma raw_query_after_seed `{Backend} (w : world) :
  backend_dq <> DqIdent ->
  raw_query (World data (w_open w) (S (w_next_client w)) (w_stdout w) (w_stderr w) []) =
    (Rejected fav_error,
     World data (union {[S (w_next_client w)]} (w_open w)) (S (S (w_next_client w)))
           (w_stdout w) (w_stderr w) []).
Proof.
  intros Hdq. unfold raw_query.
  erewrite pbind_resolved by reflexivity.
  erewrite pbind_resolved by (apply query_raw_int_no_fault; simpl; auto using table_wf_data; lia).
  erewrite pbind_resolved by (rewrite query_raw_str_no_fault by done; destruct backend_dq; done).
  erewrite pbind_rejected; [reflexivity|].
  reflexivity.
Qed.

(** C11: with no fault, [main()] of [src/raw.ts] seeds the table, then
    its query is rejected by the third statement: the only output is the
    Prisma error [P2010] for the missing column [fav] on the error
    stream, and the query's client is never disconnected. *)
Theorem raw_main_fav_error `{Backend} (w : world) :
  w_faults w = [] -> clients_wf w -> backend_dq <> DqIdent ->
  raw_main w =
    (Resolved tt,
     World data (union {[S (w_next_client w)]} (w_open w)) (S (S (w_next_client w)))
           (w_stdout w) (w_stderr w ++ [fav_error]) []).
Proof.
  intros Hf Hc Hdq. unfold raw_main.
  erewrite pbind_resolved by (apply pcatch_resolved, seed_no_fault; done).
  rewrite (pcatch_rejected _ _ _ _ _ (raw_query_after_seed w Hdq)). reflexivity.
Qed.

Lemma raw_main_fav_error_witness :
  let w0 := World [] empty 0 [] [] [] in
  w_faults w0 = [] /\ clients_wf w0 /\ @backend_dq sqlite_backend <> DqIdent /\
  raw_main w0 = (Resolved tt, World data {[1%nat]} 2 [] [fav_error] []).
Proof.
  intros w0. assert (Hc : clients_wf w0) by (intros c Hc; set_solver).
  assert (Hdq : @backend_dq sqlite_backend <> DqIdent) by discriminate.
  split; [reflexivity|]. split; [exact Hc|]. split; [exact Hdq|].
  rewrite (raw_main_fav_error w0 eq_refl Hc Hdq). reflexivity.
Defined.

(** [query()] opens its client and, since the third statement always
    rejects, never reaches [prisma.$disconnect()]. *)
Lemma raw_query_leaves_client_open `{Backend} :
  leaves_client_open (pcatch raw_query console_error).
Proof.
  apply leaves_client_open_catch; [|auto with prisma].
  unfold raw_query. apply leaves_client_open_new. intros prisma.
  apply keeps_clients_bind; [auto with prisma|]. intros rawInt.
  apply keeps_clients_bind; [auto with prisma|]. intros rawStr.
  apply keeps_clients_bind_rejects; [auto with prisma | apply bad_int_always_rejects].
Qed.

(** C15: whatever the backend and whatever the database does, [main()]
    of [src/raw.ts] leaves the client of [query()] open: after the run,
    the open clients are those the seeding phase left open plus the
    second client created, and exactly two clients were created.  The
    [prisma.$disconnect()] of raw.ts:41 is never reached. *)
Theorem raw_main_leaks_client `{Backend} (w : world) :
  w_open (pexec raw_main w) =
    union {[S (w_next_client w)]} (w_open (pexec (pcatch seed console_error) w)) /\
  w_next_client (pexec raw_main w) = S (S (w_next_client w)).
Proof.
  rewrite <- (seed_next_client w).
  assert (Hx : pexec raw_main w =
               pexec (pcatch raw_query console_error) (pexec (pcatch seed console_error) w))
    by (unfold raw_main, pexec at 1; by rewrite pbind_caught).
  rewrite Hx.
  apply raw_query_leaves_client_open.
Qed.

(** C18: [main()] of [src/raw.ts] never rejects, whatever the backend
    and whatever the database does: the rejection of [seed()] and the
    one of [query()] (which always comes, from its third statement) are
    both caught and logged, so the process sees no unhandled
    rejection. *)
Theorem raw_main_resolves `{Backend} (w : world) : fst (raw_main w) = Resolved tt.
Proof. unfold raw_main. rewrite pbind_caught. apply caught_resolves. Qed.

(** ** The declared row types against the rows *)

(** The run-time check [conforms] is membership in the declared type. *)
Lemma conforms_has_type d rows : conforms d rows = has_type rows (TArray (decl_ty d)).
Proof.
  destruct rows as [| | | | | |rs|]; try done. simpl. apply forallb_ext. intros [| | | | | | |gs]; try done.
  simpl. induction d as [|[f t] d IH]; [done|]. simpl. rewrite IH. f_equal.
  destruct t; by destruct (default JUndefined (field_lookup gs f)).
Qed.

Lemma eval_mySum_expr x rows : eval [(x, rows)] (mySum_expr x) = mySum_of rows.
Proof. unfold mySum_expr, mySum_of. simpl. by rewrite String.eqb_refl. Qed.

(** C17: the row types of raw.ts are not checked.  [tsc] types
    [rawInt[0].mySum] as [number] and accepts [const badValue: number =
    badInt[0].mySum + 99] (raw.ts:27); yet with no fault, on a table where
    no row has an age and on a backend reading [""] as a string, the rows
    bound to [rawInt] do not have their declared type and
    [rawInt[0].mySum] evaluates to the string [""].  By [type_sound] a
    value of another type than the static one can only come from such an
    unchecked binding. *)
Theorem raw_declared_types_unchecked `{Backend} (w : world) :
  w_faults w = [] -> table_wf (w_table w) -> (Z.of_nat (length (w_table w)) < 2 ^ 32)%Z ->
  backend_dq <> DqIdent -> sum_age_spec (w_table w) = None ->
  type_of raw_tenv (mySum_expr "rawInt") = Typed TNumber /\
  check_decl raw_tenv TNumber raw_badValue_expr = Typed TNumber /\
  exists rows, query_raw raw_int_text w = (Resolved rows, w) /\
    has_type rows (TArray (decl_ty QueryIntResult)) = false /\
    eval [("rawInt", rows)] (mySum_expr "rawInt") = Resolved (JString "").
Proof.
  intros Hf Hwf Hlen Hdq Hs.
  destruct (query_raw_int_no_fault w Hf Hwf Hlen Hdq) as [Hq Hc]. rewrite Hs in Hq, Hc.
  split; [reflexivity|]. split; [reflexivity|].
  eexists. split; [exact Hq|]. split.
  - rewrite <- conforms_has_type. apply not_true_is_false. intros Hconf.
    by destruct (proj1 Hc Hconf).
  - by rewrite eval_mySum_expr.
Qed.

Lemma raw_declared_types_unchecked_witness :
  let w0 := World [SimpleRow "b" None] empty 0 [] [] [] in
  w_faults w0 = [] /\ table_wf (w_table w0) /\ (Z.of_nat (length (w_table w0)) < 2 ^ 32)%Z /\
  @backend_dq sqlite_backend <> DqIdent /\ sum_age_spec (w_table w0) = None /\
  type_of raw_tenv (mySum_expr "rawInt") = Typed TNumber /\
  check_decl raw_tenv TNumber raw_badValue_expr = Typed TNumber /\
  exists rows, @query_raw sqlite_backend raw_int_text w0 = (Resolved rows, w0) /\
    has_type rows (TArray (decl_ty QueryIntResult)) = false /\
    eval [("rawInt", rows)] (mySum_expr "rawInt") = Resolved (JString "").
Proof.
  intros w0.
  assert (Hwf : table_wf (w_table w0)).
  { apply List.Forall_cons; [simpl; by intros z [=] | apply List.Forall_nil]. }
  assert (Hlen : (Z.of_nat (length (w_table w0)) < 2 ^ 32)%Z) by (simpl; lia).
  assert (Hdq : @backend_dq sqlite_backend <> DqIdent) by discriminate.
  split; [reflexivity|]. split; [exact Hwf|]. split; [exact Hlen|]. split; [exact Hdq|].
  split; [reflexivity|].
  exact (raw_declared_types_unchecked w0 eq_refl Hwf Hlen Hdq eq_refl).
Defined.
